(** * AI-Fan: the UDP fan-control service

    A shallow embedding of [src/service.ts], [src/utils/errors.ts] and
    [src/utils/validation.ts], and the properties of the retry executor,
    the validation gate, the command encoding, the health probe and the
    socket cleanup.

    Conventions.
    - A JavaScript computation that may throw is a state transformer
      returning a [Completion]: [Normal v] or [Abrupt thrown].
    - Attempt counts and delays are integers ([Z]): the configuration
      schema constrains [UDP_RETRY_ATTEMPTS] to an integer in 1..10 and the
      base delay is the literal [100]. The loop starts at attempt 1, so
      the exponent of [Math.pow(2, attempt - 1)] is never negative.
    - A retried operation rejects with an [Error] object, as the cast
      [error as Error] in [withRetry] assumes.
    - The calls of the operation and the delays awaited are recorded in a
      trace that the code itself does not see.
    - The logger is total: emitting an entry never throws. *)

From Stdlib Require Import ZArith List String Ascii Bool Lia DecimalString.
From Equations Require Import Equations.
Import ListNotations.

Local Open Scope string_scope.
Local Open Scope list_scope.
Local Open Scope Z_scope.

(* ===================================================================== *)
(** ** src/utils/errors.ts *)
(* ===================================================================== *)

Module Errors.

(** An [Error] object: either a built-in [Error] (only its message is
    observed) or a [FanControlError] carrying the subclass name set by
    its constructor, the message, the code and the status code. *)
Inductive JsError : Type :=
| PlainError (message : string)
| FanControlError (name message code : string) (statusCode : Z).

Definition ValidationError (message : string) : JsError :=
  FanControlError "ValidationError" message "VALIDATION_ERROR" 400.

Definition NetworkError (message : string) : JsError :=
  FanControlError "NetworkError" message "NETWORK_ERROR" 503.

Definition ConfigurationError (message : string) : JsError :=
  FanControlError "ConfigurationError" message "CONFIGURATION_ERROR" 500.

Definition message (e : JsError) : string :=
  match e with
  | PlainError m => m
  | FanControlError _ m _ _ => m
  end.

(** [error instanceof ValidationError] *)
Definition instanceof_ValidationError (e : JsError) : bool :=
  match e with
  | FanControlError n _ _ _ => String.eqb n "ValidationError"
  | PlainError _ => false
  end.

(** [error instanceof NetworkError] *)
Definition instanceof_NetworkError (e : JsError) : bool :=
  match e with
  | FanControlError n _ _ _ => String.eqb n "NetworkError"
  | PlainError _ => false
  end.

Inductive ErrorCode : Type :=
| INVALID_SPEED | UDP_SEND_FAILED | INVALID_IP | INVALID_PORT
| TIMEOUT | RETRY_EXHAUSTED.

Definition ERROR_MESSAGES (c : ErrorCode) : string :=
  match c with
  | INVALID_SPEED => "Fan speed must be between 1 and 6"
  | UDP_SEND_FAILED => "Failed to send UDP message to fan"
  | INVALID_IP => "Invalid fan IP address"
  | INVALID_PORT => "Invalid fan port number"
  | TIMEOUT => "Operation timed out"
  | RETRY_EXHAUSTED => "Maximum retry attempts exceeded"
  end.

(** [error instanceof FanControlError]: true of the class and of its
    subclasses. *)
Definition instanceof_FanControlError (e : JsError) : bool :=
  match e with
  | FanControlError _ _ _ _ => true
  | PlainError _ => false
  end.

End Errors.
Import Errors.

(* ===================================================================== *)
(** ** Completions, the exception monad over a state, and the logger *)
(* ===================================================================== *)

(** What a [throw] can carry here: an [Error] object, or [undefined]
    (the value of a [let] that was never assigned). *)
Inductive Thrown : Type :=
| ThrownError (e : JsError)
| ThrownUndefined.

Inductive Completion (A : Type) : Type :=
| Normal (a : A)
| Abrupt (t : Thrown).
Arguments Normal {A} a.
Arguments Abrupt {A} t.

(** [error instanceof Error ? error.message : String(error)] *)
Definition describe (t : Thrown) : string :=
  match t with
  | ThrownError e => message e
  | ThrownUndefined => "undefined"
  end.

Definition M (St A : Type) : Type := St -> Completion A * St.

Definition ret {St A} (a : A) : M St A := fun s => (Normal a, s).

Definition throw {St A} (t : Thrown) : M St A := fun s => (Abrupt t, s).

Definition bind {St A B} (m : M St A) (k : A -> M St B) : M St B :=
  fun s =>
    match m s with
    | (Normal a, s') => k a s'
    | (Abrupt t, s') => (Abrupt t, s')
    end.

(** [try { body } catch (error) { handler }] *)
Definition try_catch {St A} (body : M St A) (handler : Thrown -> M St A) : M St A :=
  fun s =>
    match body s with
    | (Normal a, s') => (Normal a, s')
    | (Abrupt t, s') => handler t s'
    end.

Declare Scope js_scope.
Delimit Scope js_scope with js.
Notation "x <- m ;; k" := (bind m (fun x => k))
  (at level 61, m at next level, right associativity) : js_scope.
Notation "m ;; k" := (bind m (fun _ => k))
  (at level 61, right associativity) : js_scope.

Inductive LogLevel : Type := LError | LWarn | LInfo | LDebug.

Record LogEntry : Type := mkLog {
  level : LogLevel;
  text : string;
  meta : list (string * string)
}.

(** The state of a computation that logs: the interface of
    [utils/logger.ts] used by the service. *)
Class Logger (St : Type) : Type := emit : LogEntry -> St -> St.

Definition logger {St} `{Logger St} (l : LogLevel) (msg : string)
    (m : list (string * string)) : M St unit :=
  fun s => (Normal tt, emit (mkLog l msg m) s).

(** Decimal text of an integer-valued number, as [String(n)] and
    [JSON.stringify(n)] print it. *)
Definition string_of_Z (z : Z) : string := NilZero.string_of_int (Z.to_int z).

(** Case analysis on a test while keeping the equation it satisfies. *)
Definition inspect {A : Type} (x : A) : {y : A | x = y} := exist _ x eq_refl.

(* ===================================================================== *)
(** ** src/service.ts: the retry executor *)
(* ===================================================================== *)

(** Observations of one run of [withRetry]: each call of [operation()]
    with the attempt number it was made at and whether it resolved, and
    each delay handed to [setTimeout] and awaited between attempts. *)
Inductive RetryEvent : Type :=
| Attempted (attempt : Z) (resolved : bool)
| Waited (delay : Z).

Definition attempts_of (tr : list RetryEvent) : list Z :=
  flat_map (fun e => match e with Attempted k _ => [k] | Waited _ => [] end) tr.

Definition outcomes_of (tr : list RetryEvent) : list bool :=
  flat_map (fun e => match e with Attempted _ r => [r] | Waited _ => [] end) tr.

Definition delays_of (tr : list RetryEvent) : list Z :=
  flat_map (fun e => match e with Waited d => [d] | Attempted _ _ => [] end) tr.

Definition invocations (tr : list RetryEvent) : nat := List.length (attempts_of tr).

Section Retry.
Context {St T : Type} `{Logger St}.

(** [operation: () => Promise<T>]: one call either resolves with a value
    or rejects with an [Error], and may change the state. *)
Variable operation : St -> (T + JsError) * St.

(** How control leaves the [for] loop of [withRetry]. *)
Inductive LoopExit : Type :=
| Returned (v : T)                      (* [return await operation()] *)
| ThrewInLoop (e : JsError)             (* the [throw] at line 49 *)
| FellThrough (lastError : option JsError).  (* the loop condition failed *)

Equations? retry_loop (maxRetries baseDelay attempt : Z)
    (lastError : option JsError) (s : St) (tr : list RetryEvent)
    : LoopExit * St * list RetryEvent
    by wf (Z.to_nat (maxRetries + 1 - attempt)) lt :=
  retry_loop maxRetries baseDelay attempt lastError s tr
    with inspect (attempt <=? maxRetries) := {
    | exist _ true Hle =>
        match operation s with
        | (inl v, s1) => (Returned v, s1, tr ++ [Attempted attempt true])
        | (inr error, s1) =>
            if attempt =? maxRetries then
              (ThrewInLoop (NetworkError (ERROR_MESSAGES RETRY_EXHAUSTED)),
               emit (mkLog LError "Max retry attempts exceeded"
                       [("attempt", string_of_Z attempt);
                        ("maxRetries", string_of_Z maxRetries);
                        ("error", message error)]) s1,
               tr ++ [Attempted attempt false])
            else
              let delay := baseDelay * 2 ^ (attempt - 1) in
              retry_loop maxRetries baseDelay (attempt + 1) (Some error)
                (emit (mkLog LWarn "Operation failed, retrying"
                         [("attempt", string_of_Z attempt);
                          ("maxRetries", string_of_Z maxRetries);
                          ("delay", string_of_Z delay);
                          ("error", message error)]) s1)
                (tr ++ [Attempted attempt false; Waited delay])
        end
    | exist _ false Hgt => (FellThrough lastError, s, tr) }.
Proof.
  apply Z.leb_le in Hle. lia.
Qed.

(** The instrumented run: the loop from [attempt = 1] with [lastError]
    unassigned. *)
Definition withRetry_run (maxRetries baseDelay : Z) (s : St)
    : LoopExit * St * list RetryEvent :=
  retry_loop maxRetries baseDelay 1 None s [].

(** What the caller of [withRetry] gets from each exit; after the loop,
    [throw lastError!] throws [undefined] when nothing was assigned. *)
Definition completion_of (x : LoopExit) : Completion T :=
  match x with
  | Returned v => Normal v
  | ThrewInLoop e => Abrupt (ThrownError e)
  | FellThrough (Some e) => Abrupt (ThrownError e)
  | FellThrough None => Abrupt ThrownUndefined
  end.

Definition withRetry (maxRetries baseDelay : Z) : M St T :=
  fun s =>
    let '(x, s', _) := withRetry_run maxRetries baseDelay s in
    (completion_of x, s').

End Retry.

Arguments LoopExit : clear implicits.

(* ===================================================================== *)
(** ** Regular expressions (for the patterns of the schema library) *)
(* ===================================================================== *)

Module Regex.

Inductive re : Type :=
| Void                       (* matches nothing *)
| Eps                        (* the empty string *)
| Chr (c : ascii)            (* one given character *)
| Range (lo hi : ascii)      (* [lo-hi] *)
| Alt (r1 r2 : re)           (* r1|r2 *)
| Cat (r1 r2 : re)           (* r1r2 *)
| Star (r : re).             (* r* *)

Fixpoint nullable (r : re) : bool :=
  match r with
  | Void => false
  | Eps => true
  | Chr _ => false
  | Range _ _ => false
  | Alt r1 r2 => nullable r1 || nullable r2
  | Cat r1 r2 => nullable r1 && nullable r2
  | Star _ => true
  end.

Definition alt (r1 r2 : re) : re :=
  match r1, r2 with
  | Void, _ => r2
  | _, Void => r1
  | _, _ => Alt r1 r2
  end.

Definition cat (r1 r2 : re) : re :=
  match r1, r2 with
  | Void, _ => Void
  | _, Void => Void
  | Eps, _ => r2
  | _, _ => Cat r1 r2
  end.

Definition in_range (lo hi c : ascii) : bool :=
  (N.leb (N_of_ascii lo) (N_of_ascii c) && N.leb (N_of_ascii c) (N_of_ascii hi))%bool.

(** The residual of [r] after reading [c]. *)
Fixpoint deriv (c : ascii) (r : re) : re :=
  match r with
  | Void => Void
  | Eps => Void
  | Chr d => if Ascii.eqb c d then Eps else Void
  | Range lo hi => if in_range lo hi c then Eps else Void
  | Alt r1 r2 => alt (deriv c r1) (deriv c r2)
  | Cat r1 r2 =>
      if nullable r1
      then alt (cat (deriv c r1) r2) (deriv c r2)
      else cat (deriv c r1) r2
  | Star r1 => cat (deriv c r1) (Star r1)
  end.

(** [/^r$/.test(s)] *)
Fixpoint test (r : re) (s : string) : bool :=
  match s with
  | EmptyString => nullable r
  | String c s' => test (deriv c r) s'
  end.

(** [r{n}] *)
Fixpoint times (n : nat) (r : re) : re :=
  match n with
  | O => Eps
  | S n' => Cat r (times n' r)
  end.

(** [r{0,n}] *)
Fixpoint upto (n : nat) (r : re) : re :=
  match n with
  | O => Eps
  | S n' => Alt Eps (Cat r (upto n' r))
  end.

(** [r{lo,hi}] *)
Definition rep (lo hi : nat) (r : re) : re := Cat (times lo r) (upto (hi - lo) r).

(** [r{1,}] *)
Definition plus (r : re) : re := Cat r (Star r).

(** A literal string. *)
Fixpoint lit (s : string) : re :=
  match s with
  | EmptyString => Eps
  | String c s' => Cat (Chr c) (lit s')
  end.

Fixpoint alts (rs : list re) : re :=
  match rs with
  | [] => Void
  | [r] => r
  | r :: rs' => Alt r (alts rs')
  end.

Fixpoint cats (rs : list re) : re :=
  match rs with
  | [] => Eps
  | [r] => r
  | r :: rs' => Cat r (cats rs')
  end.

End Regex.

(* ===================================================================== *)
(** ** JavaScript values reaching the validators *)
(* ===================================================================== *)

Module Js.

(** A [number]. A finite non-integer is given by its floor (all that the
    comparisons with integer bounds need) and the text the runtime prints
    for it. *)
Inductive Number : Type :=
| Int (z : Z)
| NonInt (floor : Z) (text : string)
| NaN
| Infinity (negative : bool).

Inductive Value : Type :=
| VUndefined
| VNull
| VBoolean (b : bool)
| VNumber (n : Number)
| VString (s : string)
| VArray
| VObject.

(** [Number.isInteger(n)] *)
Definition isInteger (n : Number) : bool :=
  match n with Int _ => true | _ => false end.

(** [n < b] for an integer [b] *)
Definition lt (n : Number) (b : Z) : bool :=
  match n with
  | Int z => z <? b
  | NonInt fl _ => fl <? b
  | NaN => false
  | Infinity negative => negative
  end.

(** [n > b] for an integer [b] *)
Definition gt (n : Number) (b : Z) : bool :=
  match n with
  | Int z => b <? z
  | NonInt fl _ => b <=? fl
  | NaN => false
  | Infinity negative => negb negative
  end.

(** [String(n)]; [JSON.stringify] prints finite numbers the same way.
    Integers are printed in plain decimal, as the runtime does below
    10^21 in magnitude; beyond that it switches to exponent form, which
    no datagram and no error of the service can show. *)
Definition Number_toString (n : Number) : string :=
  match n with
  | Int z => string_of_Z z
  | NonInt _ t => t
  | NaN => "NaN"
  | Infinity false => "Infinity"
  | Infinity true => "-Infinity"
  end.

(** [JSON.stringify(n)]: non-finite numbers are printed as [null]. *)
Definition JSON_number (n : Number) : string :=
  match n with
  | NaN | Infinity _ => "null"
  | _ => Number_toString n
  end.

Definition Value_toString (v : Value) : string :=
  match v with
  | VUndefined => "undefined"
  | VNull => "null"
  | VBoolean true => "true"
  | VBoolean false => "false"
  | VNumber n => Number_toString n
  | VString s => s
  | VArray => ""
  | VObject => "[object Object]"
  end.

End Js.

(* ===================================================================== *)
(** ** The schema library (zod 3.x), as far as the schemas use it *)
(* ===================================================================== *)

Module Zod.
Import Js Regex.

Record ZodIssue : Type := mkIssue {
  code : string;
  issue_message : string
}.

(** Outcome of [schema.parse(input)]: the parsed data, or a thrown
    [ZodError] with its list of issues ([error.errors]). *)
Inductive ParseResult (A : Type) : Type :=
| Success (data : A)
| ZodError (errors : list ZodIssue).
Arguments Success {A} data.
Arguments ZodError {A} errors.

(** Outcome of a schema's inner parse: [None] when the parse aborted
    (no value), otherwise the value; with the issues raised so far. *)
Definition Inner (A : Type) : Type := option A * list ZodIssue.

Definition parse {A} (r : Inner A) : ParseResult A :=
  match r with
  | (Some v, []) => Success v
  | (_, issues) => ZodError issues
  end.

(** [getParsedType]: a NaN has its own parsed type. *)
Definition getParsedType (v : Value) : string :=
  match v with
  | VUndefined => "undefined"
  | VNull => "null"
  | VBoolean _ => "boolean"
  | VNumber NaN => "nan"
  | VNumber _ => "number"
  | VString _ => "string"
  | VArray => "array"
  | VObject => "object"
  end.

(** The default error map. *)
Definition default_invalid_type (expected received : string) : string :=
  if String.eqb received "undefined" then "Required"
  else String.append "Expected "
         (String.append expected (String.append ", received " received)).

Definition default_too_small (minimum : Z) : string :=
  String.append "Number must be greater than or equal to " (string_of_Z minimum).

Definition default_too_big (maximum : Z) : string :=
  String.append "Number must be less than or equal to " (string_of_Z maximum).

Definition or_default (message : option string) (default : string) : string :=
  match message with Some m => m | None => default end.

(** The checks of a [ZodNumber], in the order the schema chains them. *)
Inductive NumberCheck : Type :=
| CheckInt (message : option string)
| CheckMin (value : Z) (message : option string)
| CheckMax (value : Z) (message : option string).

Definition number_check (n : Number) (c : NumberCheck) : list ZodIssue :=
  match c with
  | CheckInt m =>
      if isInteger n then []
      else [mkIssue "invalid_type"
              (or_default m (default_invalid_type "integer" "float"))]
  | CheckMin v m =>
      if lt n v then [mkIssue "too_small" (or_default m (default_too_small v))]
      else []
  | CheckMax v m =>
      if gt n v then [mkIssue "too_big" (or_default m (default_too_big v))]
      else []
  end.

(** [ZodNumber._parse]: a non-number aborts with one issue; otherwise
    every check runs and contributes its issue. *)
Definition ZodNumber (checks : list NumberCheck) (input : Value) : Inner Number :=
  match input with
  | VNumber NaN =>
      (None, [mkIssue "invalid_type" (default_invalid_type "number" "nan")])
  | VNumber n => (Some n, flat_map (number_check n) checks)
  | _ =>
      (None, [mkIssue "invalid_type"
                (default_invalid_type "number" (getParsedType input))])
  end.

Definition digit : re := Range "0" "9".
Definition hex : re := alts [Range "0" "9"; Range "a" "f"; Range "A" "F"].
Definition dot : re := Chr ".".
Definition colon : re := Chr ":".
Definition opt (r : re) : re := rep 0 1 r.

(** [25[0-5]|2[0-4][0-9]|1[0-9][0-9]|[1-9][0-9]|[0-9]] *)
Definition octet : re :=
  alts [cats [lit "25"; Range "0" "5"];
        cats [Chr "2"; Range "0" "4"; digit];
        cats [Chr "1"; digit; digit];
        cats [Range "1" "9"; digit];
        digit].

(** [^(?:octet\.){3}octet$] *)
Definition ipv4Regex : re := Cat (times 3 (Cat octet dot)) octet.

(** [(25[0-5]|(2[0-4]|1{0,1}[0-9]){0,1}[0-9])] *)
Definition octet6 : re :=
  alts [cats [lit "25"; Range "0" "5"];
        cats [opt (alts [cats [Chr "2"; Range "0" "4"];
                         cats [opt (Chr "1"); digit]]);
              digit]].

(** [(octet6\.){3,3}octet6] *)
Definition quad6 : re := Cat (rep 3 3 (Cat octet6 dot)) octet6.

(** [h{1,4}:] and [:h{1,4}] for a hexadecimal digit [h] *)
Definition group_colon : re := Cat (rep 1 4 hex) colon.
Definition colon_group : re := Cat colon (rep 1 4 hex).

(** The IPv6 pattern, one alternative per entry; [h] is [[0-9a-fA-F]]. *)
Definition ipv6Regex : re :=
  alts [
    (* (h{1,4}:){7,7}h{1,4} *)
    Cat (rep 7 7 group_colon) (rep 1 4 hex);
    (* (h{1,4}:){1,7}: *)
    Cat (rep 1 7 group_colon) colon;
    (* (h{1,4}:){1,6}:h{1,4} *)
    Cat (rep 1 6 group_colon) colon_group;
    (* (h{1,4}:){1,5}(:h{1,4}){1,2} *)
    Cat (rep 1 5 group_colon) (rep 1 2 colon_group);
    (* (h{1,4}:){1,4}(:h{1,4}){1,3} *)
    Cat (rep 1 4 group_colon) (rep 1 3 colon_group);
    (* (h{1,4}:){1,3}(:h{1,4}){1,4} *)
    Cat (rep 1 3 group_colon) (rep 1 4 colon_group);
    (* (h{1,4}:){1,2}(:h{1,4}){1,5} *)
    Cat (rep 1 2 group_colon) (rep 1 5 colon_group);
    (* h{1,4}:((:h{1,4}){1,6}) *)
    Cat group_colon (rep 1 6 colon_group);
    (* :((:h{1,4}){1,7}|:) *)
    Cat colon (Alt (rep 1 7 colon_group) colon);
    (* fe80:(:h{0,4}){0,4}%[0-9a-zA-Z]{1,} *)
    cats [lit "fe80:"; rep 0 4 (Cat colon (rep 0 4 hex)); Chr "%";
          plus (alts [Range "0" "9"; Range "a" "z"; Range "A" "Z"])];
    (* ::(ffff(:0{1,4}){0,1}:){0,1}(octet6\.){3,3}octet6 *)
    cats [lit "::";
          opt (cats [lit "ffff"; opt (Cat colon (rep 1 4 (Chr "0"))); colon]);
          quad6];
    (* (h{1,4}:){1,4}:(octet6\.){3,3}octet6 *)
    cats [rep 1 4 group_colon; colon; quad6]
  ].

(** [isValidIP(ip, version)] with no [version]: either family. *)
Definition isValidIP (ip : string) : bool :=
  test ipv4Regex ip || test ipv6Regex ip.

(** [z.string().ip()]: a non-string aborts; a string failing the check
    keeps its value and raises an issue. *)
Definition ZodString_ip (input : Value) : Inner string :=
  match input with
  | VString s =>
      (Some s, if isValidIP s then [] else [mkIssue "invalid_string" "Invalid ip"])
  | _ =>
      (None, [mkIssue "invalid_type"
                (default_invalid_type "string" (getParsedType input))])
  end.

(** [schema.refine(check, message)]: skipped when the inner parse
    aborted, otherwise run on the inner value. *)
Definition refine {A} (inner : Inner A) (check : A -> bool) (message : string)
    : Inner A :=
  match inner with
  | (None, issues) => (None, issues)
  | (Some v, issues) =>
      (Some v, if check v then issues else issues ++ [mkIssue "custom" message])
  end.

(** [z.boolean()]: anything but a boolean aborts with one issue. *)
Definition ZodBoolean (input : Value) : Inner bool :=
  match input with
  | VBoolean b => (Some b, [])
  | _ =>
      (None, [mkIssue "invalid_type"
                (default_invalid_type "boolean" (getParsedType input))])
  end.

End Zod.

(* ===================================================================== *)
(** ** src/utils/validation.ts *)
(* ===================================================================== *)

Module Validation.
Import Js Zod.

Definition fanSpeedSchema : Value -> Inner Number :=
  ZodNumber [CheckInt None;
             CheckMin 1 (Some (ERROR_MESSAGES INVALID_SPEED));
             CheckMax 6 (Some (ERROR_MESSAGES INVALID_SPEED))].

Definition ipAddressSchema (input : Value) : Inner string :=
  refine (ZodString_ip input)
    (fun ip => negb (String.eqb ip "0.0.0.0")) "IP address cannot be 0.0.0.0".

Definition portSchema : Value -> Inner Number :=
  ZodNumber [CheckInt None;
             CheckMin 1 (Some "Port must be greater than 0");
             CheckMax 65535 (Some "Port must be less than 65536")].

(** The shared shape of the validators:
    [try { return schema.parse(x) } catch (error) { throw new ValidationError(...) }] *)
Definition validate_with {A} (schema : Value -> Inner A) (fallback : string)
    (x : Value) : Completion A :=
  match parse (schema x) with
  | Success data => Normal data
  | ZodError (issue :: _) =>
      Abrupt (ThrownError (ValidationError (issue_message issue)))
  | ZodError [] => Abrupt (ThrownError (ValidationError fallback))
  end.

Definition validateFanSpeed (speed : Value) : Completion Number :=
  validate_with fanSpeedSchema "Invalid fan speed value" speed.

Definition validateIpAddress (ip : Value) : Completion string :=
  validate_with ipAddressSchema "Invalid IP address" ip.

Definition validatePort (port : Value) : Completion Number :=
  validate_with portSchema "Invalid port number" port.

Definition isValidFanSpeed (speed : Value) : bool :=
  match parse (fanSpeedSchema speed) with Success _ => true | ZodError _ => false end.

Definition isValidIpAddress (ip : Value) : bool :=
  match parse (ipAddressSchema ip) with Success _ => true | ZodError _ => false end.

Definition booleanSchema : Value -> Inner bool := ZodBoolean.

Definition validateBoolean (value : Value) : Completion bool :=
  validate_with booleanSchema "Value must be a boolean" value.

Definition isValidPort (port : Value) : bool :=
  match parse (portSchema port) with Success _ => true | ZodError _ => false end.

End Validation.

(* ===================================================================== *)
(** ** src/service.ts: the datagram transport and the public operations *)
(* ===================================================================== *)

(** [needle] occurs in [hay] ([hay.includes(needle)]). *)
Fixpoint contains (needle hay : string) : bool :=
  match hay with
  | EmptyString => String.prefix needle EmptyString
  | String _ rest => String.prefix needle hay || contains needle rest
  end.

Module Service.
Import Js Validation.

(** The fields of [config] the service reads. *)
Record Config : Type := mkConfig {
  FAN_IP : string;
  FAN_PORT : Z;
  UDP_TIMEOUT : Z;
  UDP_RETRY_ATTEMPTS : Z
}.

Inductive SocketState : Type := Open | Closed.

(** What happens to one [client.send] within [UDP_TIMEOUT]: the callback
    fires without error, fires with an error, or does not fire. *)
Inductive SendOutcome : Type :=
| Delivered
| SendFailed (err : string)
| NoCallback.

(** The process-wide state: the socket [client], the payloads handed to
    [client.send] so far, the behaviour of the network at the i-th send,
    and the log. *)
Record World : Type := mkWorld {
  socket : SocketState;
  sent : list string;
  network : nat -> SendOutcome;
  logs : list LogEntry
}.

#[export] Instance World_Logger : Logger World :=
  fun e w => mkWorld (socket w) (sent w) (network w) (logs w ++ [e]).

Definition lift {A} (c : Completion A) : M World A := fun w => (c, w).

(** [interface UdpMessage]: absent fields are [None]. *)
Record UdpMessage : Type := mkMessage {
  led : option bool;
  power : option bool;
  speed : option Number
}.

Definition dquote : string := String (ascii_of_nat 34) EmptyString.

Definition JSON_boolean (b : bool) : string := if b then "true" else "false".

(** One [key:value] member of a JSON object. *)
Definition member (key value : string) : string :=
  String.append dquote (String.append key (String.append dquote (String.append ":" value))).

Definition members (m : UdpMessage) : list string :=
  match led m with Some b => [member "led" (JSON_boolean b)] | None => [] end ++
  match power m with Some b => [member "power" (JSON_boolean b)] | None => [] end ++
  match speed m with Some n => [member "speed" (JSON_number n)] | None => [] end.

(** [JSON.stringify(message)]: members with an [undefined] value are
    left out. *)
Definition JSON_stringify (m : UdpMessage) : string :=
  String.append "{" (String.append (String.concat "," (members m)) "}").

(** [client.close()]: closing a socket that is not running throws. *)
Definition client_close : M World unit :=
  fun w =>
    match socket w with
    | Open => (Normal tt, mkWorld Closed (sent w) (network w) (logs w))
    | Closed => (Abrupt (ThrownError (PlainError "Not running")), w)
    end.

(** The promise built for one attempt: arm the timeout, call
    [client.send], and settle on whichever comes first. A socket that is
    not running makes [client.send] throw, which rejects the promise. *)
Definition send_attempt (messageStr : string) (w : World) : (unit + JsError) * World :=
  match socket w with
  | Closed => (inr (PlainError "Not running"), w)
  | Open =>
      let w1 := mkWorld (socket w) (sent w ++ [messageStr]) (network w) (logs w) in
      match network w (List.length (sent w)) with
      | Delivered =>
          (inl tt,
           emit (mkLog LDebug "UDP message sent successfully"
                   [("message", messageStr)]) w1)
      | SendFailed err =>
          (inr (NetworkError (ERROR_MESSAGES UDP_SEND_FAILED)),
           emit (mkLog LError "UDP send error"
                   [("error", err); ("message", messageStr)]) w1)
      | NoCallback => (inr (NetworkError (ERROR_MESSAGES TIMEOUT)), w1)
      end
  end.

Inductive Health : Type := healthy | unhealthy.

Record HealthStatus : Type := mkHealth {
  status : Health;
  details : string
}.

(** The logical commands of the tool surface. *)
Inductive Command : Type :=
| LedOn | LedOff | PowerOn | PowerOff
| SetSpeed (level : Value).

Section WithConfig.
Variable config : Config.
Local Open Scope js_scope.

Definition sendUdpMessage (message : UdpMessage) : M World unit :=
  let messageStr := JSON_stringify message in
  logger LDebug "Sending UDP message"
    [("message", messageStr);
     ("target", String.append (FAN_IP config)
                  (String.append ":" (string_of_Z (FAN_PORT config))))] ;;
  try_catch
    (withRetry (send_attempt messageStr) (UDP_RETRY_ATTEMPTS config) 100)
    (fun error =>
       logger LError "Failed to send UDP message after retries"
         [("message", messageStr); ("error", describe error)] ;;
       throw error).

Definition turnOnLed : M World unit :=
  try_catch
    (logger LInfo "Turning on LED" [] ;;
     sendUdpMessage (mkMessage (Some true) None None) ;;
     logger LInfo "LED turned on successfully" [])
    (fun error =>
       logger LError "Failed to turn on LED" [("error", describe error)] ;;
       throw error).

Definition turnOffLed : M World unit :=
  try_catch
    (logger LInfo "Turning off LED" [] ;;
     sendUdpMessage (mkMessage (Some false) None None) ;;
     logger LInfo "LED turned off successfully" [])
    (fun error =>
       logger LError "Failed to turn off LED" [("error", describe error)] ;;
       throw error).

Definition turnOnFan : M World unit :=
  try_catch
    (logger LInfo "Turning on fan" [] ;;
     sendUdpMessage (mkMessage None (Some true) None) ;;
     logger LInfo "Fan turned on successfully" [])
    (fun error =>
       logger LError "Failed to turn on fan" [("error", describe error)] ;;
       throw error).

Definition turnOffFan : M World unit :=
  try_catch
    (logger LInfo "Turning off fan" [] ;;
     sendUdpMessage (mkMessage None (Some false) None) ;;
     logger LInfo "Fan turned off successfully" [])
    (fun error =>
       logger LError "Failed to turn off fan" [("error", describe error)] ;;
       throw error).

(** [error instanceof ValidationError] for a caught value *)
Definition is_ValidationError (t : Thrown) : bool :=
  match t with
  | ThrownError e => instanceof_ValidationError e
  | ThrownUndefined => false
  end.

Definition setFanSpeed (speed : Value) : M World unit :=
  try_catch
    (validatedSpeed <- lift (validateFanSpeed speed) ;;
     logger LInfo "Setting fan speed" [("speed", Number_toString validatedSpeed)] ;;
     sendUdpMessage (mkMessage None None (Some validatedSpeed)) ;;
     logger LInfo "Fan speed set successfully"
       [("speed", Number_toString validatedSpeed)])
    (fun error =>
       if is_ValidationError error then
         logger LWarn "Invalid fan speed provided"
           [("speed", Value_toString speed); ("error", describe error)] ;;
         throw error
       else
         logger LError "Failed to set fan speed"
           [("speed", Value_toString speed); ("error", describe error)] ;;
         throw error).

Definition checkFanHealth : M World HealthStatus :=
  try_catch
    (logger LDebug "Checking fan health" [] ;;
     sendUdpMessage (mkMessage (Some false) None None) ;;
     logger LDebug "Fan health check passed" [] ;;
     ret (mkHealth healthy "Fan is responding to UDP messages"))
    (fun error =>
       logger LWarn "Fan health check failed" [("error", describe error)] ;;
       ret (mkHealth unhealthy
              (String.append "Fan is not responding: " (describe error)))).

Definition cleanup : M World unit :=
  try_catch
    (logger LInfo "Cleaning up UDP client" [] ;;
     client_close ;;
     logger LInfo "UDP client closed successfully" [])
    (fun error =>
       logger LError "Error during UDP client cleanup"
         [("error", describe error)]).

(** The operation each command is dispatched to. *)
Definition dispatch (c : Command) : M World unit :=
  match c with
  | LedOn => turnOnLed
  | LedOff => turnOffLed
  | PowerOn => turnOnFan
  | PowerOff => turnOffFan
  | SetSpeed level => setFanSpeed level
  end.

(** The module's top-level check, run once when the service is loaded:
    validate the configured address, then the port; log and rethrow. *)
Definition startup : M World unit :=
  try_catch
    (lift (validateIpAddress (VString (FAN_IP config))) ;;
     lift (validatePort (VNumber (Int (FAN_PORT config)))) ;;
     ret tt)
    (fun error =>
       logger LError "Invalid configuration"
         [("error", describe error);
          ("FAN_IP", FAN_IP config);
          ("FAN_PORT", string_of_Z (FAN_PORT config))] ;;
       throw error).

End WithConfig.

(** The object literal an operation passes to [sendUdpMessage], for a
    speed level that is a number. *)
Definition encode (c : Command) : option UdpMessage :=
  match c with
  | LedOn => Some (mkMessage (Some true) None None)
  | LedOff => Some (mkMessage (Some false) None None)
  | PowerOn => Some (mkMessage None (Some true) None)
  | PowerOff => Some (mkMessage None (Some false) None)
  | SetSpeed (VNumber n) => Some (mkMessage None None (Some n))
  | SetSpeed _ => None
  end.

(** Number of populated fields of a message. *)
Definition populated (m : UdpMessage) : nat :=
  (match led m with Some _ => 1 | None => 0 end
   + match power m with Some _ => 1 | None => 0 end
   + match speed m with Some _ => 1 | None => 0 end)%nat.

End Service.

(* ===================================================================== *)
(** ** src/index.ts: the tool handlers *)
(* ===================================================================== *)

Module Index.
Import Js Service.

Section WithConfig.
Variable config : Config.
Local Open Scope js_scope.

(** [error instanceof FanControlError] for a caught value *)
Definition is_FanControlError (t : Thrown) : bool :=
  match t with
  | ThrownError e => instanceof_FanControlError e
  | ThrownUndefined => false
  end.

(** [new FanControlError(message)] with the default code and status. *)
Definition new_FanControlError (message : string) : JsError :=
  FanControlError "FanControlError" message "FAN_CONTROL_ERROR" 500.

Definition Health_text (h : Health) : string :=
  match h with healthy => "healthy" | unhealthy => "unhealthy" end.

(** The handler of [check-fan-health]; the result is the text of its one
    content item. *)
Definition check_fan_health : M World string :=
  try_catch
    (logger LInfo "Health check requested" [] ;;
     health <- checkFanHealth config ;;
     ret (String.append "Fan status: "
            (String.append (Health_text (status health))
               (String.append ". " (details health)))))
    (fun error =>
       logger LError "Health check failed" [("error", describe error)] ;;
       throw error).

(** The shape the four handlers without argument share: call the
    operation and answer with a fixed text; rethrow a [FanControlError],
    wrap anything else in a new one. *)
Definition control_tool (requested : string) (operation : M World unit)
    (answer failed prefix : string) : M World string :=
  try_catch
    (logger LInfo requested [] ;;
     operation ;;
     ret answer)
    (fun error =>
       logger LError failed [("error", describe error)] ;;
       if is_FanControlError error then throw error
       else throw (ThrownError
                     (new_FanControlError (String.append prefix (describe error))))).

Definition turn_on_fan : M World string :=
  control_tool "Turn on fan requested" (turnOnFan config)
    "Fan has been turned on successfully"
    "Failed to turn on fan" "Failed to turn on fan: ".

Definition turn_off_fan : M World string :=
  control_tool "Turn off fan requested" (turnOffFan config)
    "Fan has been turned off successfully"
    "Failed to turn off fan" "Failed to turn off fan: ".

Definition turn_on_led : M World string :=
  control_tool "Turn on LED requested" (turnOnLed config)
    "LED has been turned on successfully"
    "Failed to turn on LED" "Failed to turn on LED: ".

Definition turn_off_led : M World string :=
  control_tool "Turn off LED requested" (turnOffLed config)
    "LED has been turned off successfully"
    "Failed to turn off LED" "Failed to turn off LED: ".

(** The handler of [set-fan-speed], given the [speed] argument. *)
Definition set_fan_speed (speed : Value) : M World string :=
  try_catch
    (logger LInfo "Set fan speed requested" [("speed", Value_toString speed)] ;;
     setFanSpeed config speed ;;
     ret (String.append "Fan speed has been set to "
            (String.append (Value_toString speed) " successfully")))
    (fun error =>
       logger LError "Failed to set fan speed"
         [("speed", Value_toString speed); ("error", describe error)] ;;
       if is_ValidationError error || is_FanControlError error then throw error
       else throw (ThrownError
                     (new_FanControlError
                        (String.append "Failed to set fan speed: " (describe error))))).

(** The handler a command of the tool surface is served by. *)
Definition handler (c : Command) : M World string :=
  match c with
  | LedOn => turn_on_led
  | LedOff => turn_off_led
  | PowerOn => turn_on_fan
  | PowerOff => turn_off_fan
  | SetSpeed level => set_fan_speed level
  end.

End WithConfig.

End Index.

(* ===================================================================== *)
(** ** Vocabulary of the properties *)
(* ===================================================================== *)

(** The log entries [withRetry] emits. *)
Definition retry_warning (attempt maxRetries baseDelay : Z) (error : JsError) : LogEntry :=
  mkLog LWarn "Operation failed, retrying"
    [("attempt", string_of_Z attempt);
     ("maxRetries", string_of_Z maxRetries);
     ("delay", string_of_Z (baseDelay * 2 ^ (attempt - 1)));
     ("error", message error)].

Definition retry_exceeded (attempt maxRetries : Z) (error : JsError) : LogEntry :=
  mkLog LError "Max retry attempts exceeded"
    [("attempt", string_of_Z attempt);
     ("maxRetries", string_of_Z maxRetries);
     ("error", message error)].

(** The generic failure thrown on exhaustion. *)
Definition retry_exhausted : JsError := NetworkError (ERROR_MESSAGES RETRY_EXHAUSTED).

(** [n] failed rounds starting at attempt [from]: each is a rejected call
    followed by the wait [baseDelay * 2^(attempt-1)]. *)
Fixpoint failed_rounds (n : nat) (from baseDelay : Z) : list RetryEvent :=
  match n with
  | O => []
  | S n' =>
      Attempted from false :: Waited (baseDelay * 2 ^ (from - 1))
        :: failed_rounds n' (from + 1) baseDelay
  end.

(** The loop was left by [return]. *)
Definition is_Returned {T} (x : LoopExit T) : bool :=
  match x with Returned _ => true | _ => false end.

(** An operation that rejects whenever it is called. *)
Definition always_fails {St T} (operation : St -> (T + JsError) * St) : Prop :=
  forall s, exists e s1, operation s = (inr e, s1).

(** A state for exercising the executor on its own: the number of calls
    made so far and the log. *)
#[export] Instance Counter_Logger : Logger (nat * list LogEntry) :=
  fun e s => (fst s, snd s ++ [e]).

(** Rejects its first [failures] calls, then resolves with 42. *)
Definition flaky (failures : nat) (s : nat * list LogEntry)
    : (Z + JsError) * (nat * list LogEntry) :=
  if Nat.ltb (fst s) failures
  then (inr (PlainError "boom"), (S (fst s), snd s))
  else (inl 42, (S (fst s), snd s)).

(** Rejects every call. *)
Definition broken (s : nat * list LogEntry) : (Z + JsError) * (nat * list LogEntry) :=
  (inr (PlainError "boom"), (S (fst s), snd s)).

(** An input in the valid speed range: an integer-valued number in 1..6. *)
Definition valid_speed (v : Js.Value) : bool :=
  match v with
  | Js.VNumber (Js.Int z) => (1 <=? z) && (z <=? 6)
  | _ => false
  end.

(** The world [w'] differs from [w] in its datagrams only by further
    copies of the payload [str]. *)
Definition extends_sent (str : string) (w w' : Service.World) : Prop :=
  exists k : nat, Service.sent w' = Service.sent w ++ repeat str k.

(** A computation that hands nothing but copies of [str] to the socket. *)
Definition only_sends {A} (str : string) (m : M Service.World A) : Prop :=
  forall w, extends_sent str w (snd (m w)).

(** A computation that, started with a running socket, hands at least one
    copy of [str] to it, and nothing else. *)
Definition sends_some {A} (str : string) (m : M Service.World A) : Prop :=
  forall w, Service.socket w = Service.Open ->
            exists k : nat, Service.sent (snd (m w)) = Service.sent w ++ repeat str (S k).

(** A state in which every send times out: the socket is running and the
    callback of [client.send] never fires. *)
Definition unreachable (w : Service.World) : Prop :=
  Service.socket w = Service.Open /\
  forall i, Service.network w i = Service.NoCallback.

(** The message of the liveness probe. *)
Definition probe : Service.UdpMessage := Service.mkMessage (Some false) None None.

(** A command whose argument, if any, is in range. *)
Definition valid_command (c : Service.Command) : bool :=
  match c with
  | Service.SetSpeed level => valid_speed level
  | _ => true
  end.

(** The one wire field of a command and the JSON text of its value. *)
Definition field_of (c : Service.Command) : string :=
  match c with
  | Service.LedOn | Service.LedOff => "led"
  | Service.PowerOn | Service.PowerOff => "power"
  | Service.SetSpeed _ => "speed"
  end.

Definition value_of (c : Service.Command) : string :=
  match c with
  | Service.LedOn | Service.PowerOn => "true"
  | Service.LedOff | Service.PowerOff => "false"
  | Service.SetSpeed (Js.VNumber n) => Js.JSON_number n
  | Service.SetSpeed _ => "null"
  end.

(** The text of a JSON object with one member, character by character:
    an opening brace, the key between double quotes (character 34), a
    colon, the value, a closing brace. *)
Definition json_object (key value : string) : string :=
  String "{"
    (String "034"
       (String.append key
          (String "034" (String ":" (String.append value "}"))))).

(** The decimal digit of a speed level. *)
Definition speed_text (z : Z) : string :=
  match z with
  | 1 => "1" | 2 => "2" | 3 => "3" | 4 => "4" | 5 => "5" | 6 => "6"
  | _ => ""
  end.

(** The datagram expected on the wire for each command. *)
Definition payload_text (c : Service.Command) : string :=
  match c with
  | Service.LedOn => json_object "led" "true"
  | Service.LedOff => json_object "led" "false"
  | Service.PowerOn => json_object "power" "true"
  | Service.PowerOff => json_object "power" "false"
  | Service.SetSpeed (Js.VNumber (Js.Int z)) => json_object "speed" (speed_text z)
  | Service.SetSpeed _ => ""
  end.

(** A concrete configuration and worlds for exercising the service. *)
Definition example_config : Service.Config :=
  Service.mkConfig "192.168.1.13" 5600 5000 3.

Definition fresh_world (network : nat -> Service.SendOutcome) : Service.World :=
  Service.mkWorld Service.Open [] network [].

(** Sum of a list of delays. *)
Definition total (l : list Z) : Z := fold_right Z.add 0 l.

(** Two worlds that differ at most in their logs. *)
Definition same_wire (w1 w2 : Service.World) : Prop :=
  Service.socket w1 = Service.socket w2 /\
  Service.sent w1 = Service.sent w2 /\
  Service.network w1 = Service.network w2.

(** The sends numbered [from], [from+1], ..., [from+n-1] all fail. *)
Definition all_fail (w : Service.World) (from n : nat) : Prop :=
  forall i, (i < n)%nat -> Service.network w (from + i) <> Service.Delivered.

(** The first send that is delivered, counting from [from], is the one
    numbered [from + j]. *)
Definition first_delivered (w : Service.World) (from j : nat) : Prop :=
  all_fail w from j /\ Service.network w (from + j) = Service.Delivered.

(** A network that drops the first [failures] sends and delivers the rest. *)
Definition recovering (failures : nat) (i : nat) : Service.SendOutcome :=
  if Nat.ltb i failures then Service.NoCallback else Service.Delivered.

(** A computation that hands at most [n] further datagrams to the socket
    and leaves the earlier ones in place. *)
Definition sends_at_most {A} (n : nat) (m : M Service.World A) : Prop :=
  forall w, exists l, (List.length l <= n)%nat /\
                      Service.sent (snd (m w)) = Service.sent w ++ l.

(** The text a tool handler answers with when its operation succeeds. *)
Definition answer_of (c : Service.Command) : string :=
  match c with
  | Service.LedOn => "LED has been turned on successfully"
  | Service.LedOff => "LED has been turned off successfully"
  | Service.PowerOn => "Fan has been turned on successfully"
  | Service.PowerOff => "Fan has been turned off successfully"
  | Service.SetSpeed level =>
      String.append "Fan speed has been set to "
        (String.append (Js.Value_toString level) " successfully")
  end.

(** A [ValidationError] with the given message, as a completion. *)
Definition validation_failure {A} (message : string) : Completion A :=
  Abrupt (ThrownError (ValidationError message)).

(* ===================================================================== *)
(** ** The retry loop, one iteration at a time *)
(* ===================================================================== *)

Section RetryFacts.
Context {St T : Type} `{Logger St}.
Variable operation : St -> (T + JsError) * St.

(** One iteration of the loop, as the source reads. *)
Lemma retry_loop_step maxRetries baseDelay attempt lastError s tr :
  retry_loop operation maxRetries baseDelay attempt lastError s tr =
  if attempt <=? maxRetries then
    match operation s with
    | (inl v, s1) => (Returned v, s1, tr ++ [Attempted attempt true])
    | (inr error, s1) =>
        if attempt =? maxRetries then
          (ThrewInLoop retry_exhausted,
           emit (retry_exceeded attempt maxRetries error) s1,
           tr ++ [Attempted attempt false])
        else
          retry_loop operation maxRetries baseDelay (attempt + 1) (Some error)
            (emit (retry_warning attempt maxRetries baseDelay error) s1)
            (tr ++ [Attempted attempt false; Waited (baseDelay * 2 ^ (attempt - 1))])
    end
  else (FellThrough lastError, s, tr).
Proof.
  rewrite retry_loop_equation_1.
  unfold retry_loop_unfold_clause_1, inspect.
  destruct (attempt <=? maxRetries); reflexivity.
Qed.

(** Shape of every run that enters the loop: some failed rounds, then
    one last call that either resolves or is the rejected call at
    [maxRetries]. *)
Lemma retry_loop_shape maxRetries baseDelay :
  forall (n : nat) attempt lastError s tr,
    n = Z.to_nat (maxRetries - attempt) ->
    attempt <= maxRetries ->
    exists (j : nat) s',
      attempt + Z.of_nat j <= maxRetries /\
      ((exists v,
           retry_loop operation maxRetries baseDelay attempt lastError s tr =
           (Returned v, s',
            tr ++ failed_rounds j attempt baseDelay
               ++ [Attempted (attempt + Z.of_nat j) true]))
       \/
       (attempt + Z.of_nat j = maxRetries /\
        retry_loop operation maxRetries baseDelay attempt lastError s tr =
        (ThrewInLoop retry_exhausted, s',
         tr ++ failed_rounds j attempt baseDelay ++ [Attempted maxRetries false]))).
Proof.
  induction n as [|n IH]; intros attempt lastError s tr Hn Hle;
    rewrite retry_loop_step;
    (replace (attempt <=? maxRetries) with true by (symmetry; apply Z.leb_le; lia));
    destruct (operation s) as [[v|e] s1].
  - exists 0%nat, s1. split; [lia|]. left. exists v.
    simpl. rewrite Z.add_0_r. reflexivity.
  - replace (attempt =? maxRetries) with true by (symmetry; apply Z.eqb_eq; lia).
    exists 0%nat, (emit (retry_exceeded attempt maxRetries e) s1).
    split; [lia|]. right. split; [lia|].
    simpl. replace attempt with maxRetries by lia. reflexivity.
  - exists 0%nat, s1. split; [lia|]. left. exists v.
    simpl. rewrite Z.add_0_r. reflexivity.
  - replace (attempt =? maxRetries) with false by (symmetry; apply Z.eqb_neq; lia).
    destruct (IH (attempt + 1) (Some e)
                (emit (retry_warning attempt maxRetries baseDelay e) s1)
                (tr ++ [Attempted attempt false;
                        Waited (baseDelay * 2 ^ (attempt - 1))]))
      as (j & s' & Hj & Hrun); [lia | lia |].
    exists (S j), s'. split; [lia|].
    replace (attempt + Z.of_nat (S j)) with (attempt + 1 + Z.of_nat j) by lia.
    simpl. rewrite <- !app_assoc in Hrun. simpl in Hrun.
    destruct Hrun as [[v Hrun] | [Heq Hrun]].
    + left. exists v. exact Hrun.
    + right. split; [exact Heq | exact Hrun].
Qed.

(** The loop is not entered when the condition fails at once. *)
Lemma retry_loop_skipped maxRetries baseDelay attempt lastError s tr :
  maxRetries < attempt ->
  retry_loop operation maxRetries baseDelay attempt lastError s tr =
  (FellThrough lastError, s, tr).
Proof.
  intros Hlt. rewrite retry_loop_step.
  replace (attempt <=? maxRetries) with false by (symmetry; apply Z.leb_gt; lia).
  reflexivity.
Qed.

Section Exhaustion.
(** An invariant of the state under which the operation rejects. *)
Variable Inv : St -> Prop.
Hypothesis rejects :
  forall s, Inv s -> exists e s1, operation s = (inr e, s1) /\ Inv s1.
Hypothesis emit_Inv : forall l s, Inv s -> Inv (emit l s).

Lemma retry_loop_exhausts maxRetries baseDelay :
  forall (n : nat) attempt lastError s tr,
    n = Z.to_nat (maxRetries - attempt) ->
    attempt <= maxRetries ->
    Inv s ->
    exists s',
      Inv s' /\
      retry_loop operation maxRetries baseDelay attempt lastError s tr =
      (ThrewInLoop retry_exhausted, s',
       tr ++ failed_rounds n attempt baseDelay ++ [Attempted maxRetries false]).
Proof.
  induction n as [|n IH]; intros attempt lastError s tr Hn Hle Hs;
    rewrite retry_loop_step;
    (replace (attempt <=? maxRetries) with true by (symmetry; apply Z.leb_le; lia));
    destruct (rejects s Hs) as (e & s1 & Hop & Hs1); rewrite Hop.
  - replace (attempt =? maxRetries) with true by (symmetry; apply Z.eqb_eq; lia).
    exists (emit (retry_exceeded attempt maxRetries e) s1).
    split; [apply emit_Inv; exact Hs1|].
    simpl. replace attempt with maxRetries by lia. reflexivity.
  - replace (attempt =? maxRetries) with false by (symmetry; apply Z.eqb_neq; lia).
    destruct (IH (attempt + 1) (Some e)
                (emit (retry_warning attempt maxRetries baseDelay e) s1)
                (tr ++ [Attempted attempt false;
                        Waited (baseDelay * 2 ^ (attempt - 1))]))
      as (s' & Hs' & Hrun); [lia | lia | apply emit_Inv; exact Hs1 |].
    exists s'. split; [exact Hs'|].
    rewrite Hrun. simpl. rewrite <- !app_assoc. reflexivity.
Qed.
End Exhaustion.

Section Preservation.
(** A reflexive and transitive relation between states that every call
    of the operation and every log entry respects. *)
Variable R : St -> St -> Prop.
Hypothesis R_refl : forall s, R s s.
Hypothesis R_trans : forall s1 s2 s3, R s1 s2 -> R s2 s3 -> R s1 s3.
Hypothesis R_operation : forall s r s1, operation s = (r, s1) -> R s s1.
Hypothesis R_emit : forall l s, R s (emit l s).

Lemma retry_loop_preserves maxRetries baseDelay :
  forall (n : nat) attempt lastError s tr,
    n = Z.to_nat (maxRetries + 1 - attempt) ->
    R s (snd (fst (retry_loop operation maxRetries baseDelay attempt lastError s tr))).
Proof.
  induction n as [|n IH]; intros attempt lastError s tr Hn;
    rewrite retry_loop_step; destruct (attempt <=? maxRetries) eqn:Hle;
    try (simpl; apply R_refl).
  - apply Z.leb_le in Hle. lia.
  - apply Z.leb_le in Hle.
    destruct (operation s) as [[v|e] s1] eqn:Hop.
    + simpl. eapply R_operation; eassumption.
    + destruct (attempt =? maxRetries).
      * simpl. eapply R_trans; [eapply R_operation; eassumption | apply R_emit].
      * eapply R_trans; [eapply R_operation; eassumption |].
        eapply R_trans; [apply R_emit |]. apply IH. lia.
Qed.
End Preservation.

End RetryFacts.

(** *** Reading the traces *)

Lemma attempts_of_app tr1 tr2 :
  attempts_of (tr1 ++ tr2) = attempts_of tr1 ++ attempts_of tr2.
Proof. unfold attempts_of. apply flat_map_app. Qed.

Lemma outcomes_of_app tr1 tr2 :
  outcomes_of (tr1 ++ tr2) = outcomes_of tr1 ++ outcomes_of tr2.
Proof. unfold outcomes_of. apply flat_map_app. Qed.

Lemma delays_of_app tr1 tr2 :
  delays_of (tr1 ++ tr2) = delays_of tr1 ++ delays_of tr2.
Proof. unfold delays_of. apply flat_map_app. Qed.

Lemma attempts_of_failed_rounds n : forall from baseDelay,
  attempts_of (failed_rounds n from baseDelay) =
  List.map (fun i => from + Z.of_nat i) (seq 0 n).
Proof.
  induction n as [|n IH]; intros from baseDelay; [reflexivity|].
  cbn [failed_rounds attempts_of flat_map app].
  change (flat_map _ (failed_rounds n (from + 1) baseDelay))
    with (attempts_of (failed_rounds n (from + 1) baseDelay)).
  rewrite IH. cbn [seq List.map]. rewrite Z.add_0_r. f_equal.
  rewrite <- seq_shift, map_map. apply map_ext. intros i. lia.
Qed.

Lemma outcomes_of_failed_rounds n : forall from baseDelay,
  outcomes_of (failed_rounds n from baseDelay) = repeat false n.
Proof.
  induction n as [|n IH]; intros from baseDelay; [reflexivity|].
  cbn [failed_rounds outcomes_of flat_map app repeat].
  change (flat_map _ (failed_rounds n (from + 1) baseDelay))
    with (outcomes_of (failed_rounds n (from + 1) baseDelay)).
  rewrite IH. reflexivity.
Qed.

Lemma delays_of_failed_rounds n : forall from baseDelay,
  delays_of (failed_rounds n from baseDelay) =
  List.map (fun i => baseDelay * 2 ^ (from + Z.of_nat i - 1)) (seq 0 n).
Proof.
  induction n as [|n IH]; intros from baseDelay; [reflexivity|].
  cbn [failed_rounds delays_of flat_map app].
  change (flat_map _ (failed_rounds n (from + 1) baseDelay))
    with (delays_of (failed_rounds n (from + 1) baseDelay)).
  rewrite IH. cbn [seq List.map]. rewrite Z.add_0_r. f_equal.
  rewrite <- seq_shift, map_map. apply map_ext. intros i.
  do 2 f_equal. lia.
Qed.

(* ===================================================================== *)
(** ** The retry executor: exhaustion, schedule, and the fallthrough *)
(* ===================================================================== *)

(** C1. An operation that rejects on every call, run under a policy of
    [n >= 1] attempts, is called exactly [n] times (at attempts 1..n, all
    rejected, never an (n+1)th), and [withRetry] then throws the generic
    [NetworkError] "Maximum retry attempts exceeded": whatever error the
    last attempt raised does not reach the caller. *)
Theorem withRetry_exhaustion {St T} `{Logger St}
    (operation : St -> (T + JsError) * St) (n baseDelay : Z) (s : St) :
  always_fails operation ->
  1 <= n ->
  exists s' tr,
    withRetry_run operation n baseDelay s = (ThrewInLoop retry_exhausted, s', tr) /\
    withRetry operation n baseDelay s =
      (Abrupt (ThrownError (NetworkError "Maximum retry attempts exceeded")), s') /\
    invocations tr = Z.to_nat n /\
    attempts_of tr = List.map Z.of_nat (seq 1 (Z.to_nat n)) /\
    outcomes_of tr = repeat false (Z.to_nat n).
Proof.
  intros Hfail Hn.
  destruct (@retry_loop_exhausts St T _ operation (fun _ => True))
    with (maxRetries := n) (baseDelay := baseDelay) (n := Z.to_nat (n - 1))
         (attempt := 1) (lastError := @None JsError) (s := s)
         (tr := @nil RetryEvent)
    as (s' & _ & Hrun); try easy; try lia.
  { intros s0 _. destruct (Hfail s0) as (e & s1 & Hop). exists e, s1. auto. }
  simpl app in Hrun.
  assert (Hatt : attempts_of (failed_rounds (Z.to_nat (n - 1)) 1 baseDelay
                                ++ [Attempted n false])
                 = List.map Z.of_nat (seq 1 (Z.to_nat n))).
  { rewrite attempts_of_app, attempts_of_failed_rounds. simpl attempts_of.
    replace (Z.to_nat n) with (S (Z.to_nat (n - 1))) by lia.
    rewrite seq_S, map_app. cbn [List.map]. f_equal.
    - rewrite <- seq_shift, map_map. apply map_ext. intros i. lia.
    - f_equal. lia. }
  exists s', (failed_rounds (Z.to_nat (n - 1)) 1 baseDelay ++ [Attempted n false]).
  split; [exact Hrun|]. split; [|split; [|split]].
  - unfold withRetry, withRetry_run in *. rewrite Hrun. reflexivity.
  - unfold invocations. rewrite Hatt, length_map, length_seq. reflexivity.
  - exact Hatt.
  - rewrite outcomes_of_app, outcomes_of_failed_rounds. simpl outcomes_of.
    replace (Z.to_nat n) with (Z.to_nat (n - 1) + 1)%nat by lia.
    rewrite repeat_app. reflexivity.
Qed.

Lemma withRetry_exhaustion_witness :
  exists s' tr,
    withRetry_run broken 3 100 (0%nat, []) = (ThrewInLoop retry_exhausted, s', tr) /\
    withRetry broken 3 100 (0%nat, []) =
      (Abrupt (ThrownError (NetworkError "Maximum retry attempts exceeded")), s') /\
    invocations tr = Z.to_nat 3 /\
    attempts_of tr = List.map Z.of_nat (seq 1 (Z.to_nat 3)) /\
    outcomes_of tr = repeat false (Z.to_nat 3).
Proof.
  apply (withRetry_exhaustion broken 3 100 (0%nat, [])).
  - intros s. exists (PlainError "boom"), (S (fst s), snd s). reflexivity.
  - lia.
Defined.

(** C2. A call that resolves at attempt [k <= maxRetries] makes the loop
    return that value at once, the call being the last event; a call
    rejected at attempt [k < maxRetries] is followed by a wait of exactly
    [baseDelay * 2^(k-1)] and then by attempt [k+1]; hence every run that
    enters the loop consists of [j < maxRetries] rejected calls, each
    followed by its doubling delay, and one last call. In particular with
    [maxRetries = 3] and [baseDelay = 100] an operation rejected at
    attempts 1 and 2 and resolving at attempt 3 returns its value after
    the two delays 100 and 200, in three calls. *)
Theorem withRetry_success_and_backoff {St T} `{Logger St}
    (operation : St -> (T + JsError) * St) (maxRetries baseDelay : Z) :
  (forall k lastError s tr v s1,
      k <= maxRetries ->
      operation s = (inl v, s1) ->
      retry_loop operation maxRetries baseDelay k lastError s tr =
      (Returned v, s1, tr ++ [Attempted k true])) /\
  (forall k lastError s tr e s1,
      k < maxRetries ->
      operation s = (inr e, s1) ->
      retry_loop operation maxRetries baseDelay k lastError s tr =
      retry_loop operation maxRetries baseDelay (k + 1) (Some e)
        (emit (retry_warning k maxRetries baseDelay e) s1)
        (tr ++ [Attempted k false; Waited (baseDelay * 2 ^ (k - 1))])) /\
  (forall s x s' tr,
      1 <= maxRetries ->
      withRetry_run operation maxRetries baseDelay s = (x, s', tr) ->
      exists j : nat,
        Z.of_nat j < maxRetries /\
        tr = failed_rounds j 1 baseDelay
               ++ [Attempted (Z.of_nat j + 1) (is_Returned x)] /\
        delays_of tr =
          List.map (fun k => baseDelay * 2 ^ (Z.of_nat k - 1)) (seq 1 j)) /\
  (maxRetries = 3 -> baseDelay = 100 ->
   forall s0 e1 s1 e2 s2 v s3,
     operation s0 = (inr e1, s1) ->
     operation (emit (retry_warning 1 3 100 e1) s1) = (inr e2, s2) ->
     operation (emit (retry_warning 2 3 100 e2) s2) = (inl v, s3) ->
     withRetry_run operation maxRetries baseDelay s0 =
       (Returned v, s3,
        [Attempted 1 false; Waited 100; Attempted 2 false; Waited 200;
         Attempted 3 true]) /\
     withRetry operation maxRetries baseDelay s0 = (Normal v, s3)).
Proof.
  assert (Hsucc : forall k lastError s tr v s1,
      k <= maxRetries ->
      operation s = (inl v, s1) ->
      retry_loop operation maxRetries baseDelay k lastError s tr =
      (Returned v, s1, tr ++ [Attempted k true])).
  { intros k lastError s tr v s1 Hk Hop. rewrite retry_loop_step, Hop.
    replace (k <=? maxRetries) with true by (symmetry; apply Z.leb_le; lia).
    reflexivity. }
  assert (Hfail : forall k lastError s tr e s1,
      k < maxRetries ->
      operation s = (inr e, s1) ->
      retry_loop operation maxRetries baseDelay k lastError s tr =
      retry_loop operation maxRetries baseDelay (k + 1) (Some e)
        (emit (retry_warning k maxRetries baseDelay e) s1)
        (tr ++ [Attempted k false; Waited (baseDelay * 2 ^ (k - 1))])).
  { intros k lastError s tr e s1 Hk Hop.
    rewrite retry_loop_step with (attempt := k), Hop.
    replace (k <=? maxRetries) with true by (symmetry; apply Z.leb_le; lia).
    replace (k =? maxRetries) with false by (symmetry; apply Z.eqb_neq; lia).
    reflexivity. }
  split; [exact Hsucc|]. split; [exact Hfail|]. split.
  - intros s x s' tr Hmax Hrun. unfold withRetry_run in Hrun.
    destruct (@retry_loop_shape St T _ operation maxRetries baseDelay
                (Z.to_nat (maxRetries - 1)) 1 None s [] eq_refl Hmax)
      as (j & s'' & Hj & Hcase).
    assert (Hshape : tr = failed_rounds j 1 baseDelay
                            ++ [Attempted (Z.of_nat j + 1) (is_Returned x)]).
    { remember (1 + Z.of_nat j) as a eqn:Ha.
      destruct Hcase as [[v Hv] | [Hlast Hv]]; rewrite Hv in Hrun;
        injection Hrun as Hx Hs Htr; subst x tr; cbn [app is_Returned];
        do 3 f_equal; lia. }
    exists j. split; [lia|]. split; [exact Hshape|].
    rewrite Hshape, delays_of_app, delays_of_failed_rounds.
    cbn [delays_of flat_map app].
    rewrite app_nil_r, <- seq_shift, map_map. apply map_ext. intros i.
    do 2 f_equal. lia.
  - intros Hm Hb s0 e1 s1 e2 s2 v s3 H1 H2 H3. subst maxRetries baseDelay.
    assert (Hrun : withRetry_run operation 3 100 s0 =
                   (Returned v, s3,
                    [Attempted 1 false; Waited 100; Attempted 2 false;
                     Waited 200; Attempted 3 true])).
    { unfold withRetry_run.
      rewrite (Hfail 1 None s0 [] e1 s1) by (lia || exact H1).
      rewrite (Hfail (1 + 1) (Some e1) _ _ e2 s2) by (lia || exact H2).
      rewrite (Hsucc (1 + 1 + 1) (Some e2) _ _ v s3) by (lia || exact H3).
      reflexivity. }
    split; [exact Hrun|]. unfold withRetry. rewrite Hrun. reflexivity.
Qed.

Lemma withRetry_success_and_backoff_witness :
  exists s3,
    withRetry_run (flaky 2) 3 100 (0%nat, []) =
      (Returned 42, s3,
       [Attempted 1 false; Waited 100; Attempted 2 false; Waited 200;
        Attempted 3 true]) /\
    withRetry (flaky 2) 3 100 (0%nat, []) = (Normal 42, s3).
Proof.
  destruct (withRetry_success_and_backoff (flaky 2) 3 100) as (_ & _ & _ & Hpart).
  eexists.
  apply (Hpart eq_refl eq_refl (0%nat, []) (PlainError "boom") _
           (PlainError "boom") _ 42 _ eq_refl eq_refl eq_refl).
Defined.

(** C10. With [maxRetries >= 1] every run of [withRetry] leaves from
    inside the loop: it returns the operation's value or throws the
    retry-exhausted [NetworkError] at attempt [maxRetries]. The statement
    after the loop is reached only when [maxRetries < 1]; then the
    operation was never called, [lastError] was never assigned and the
    value thrown is [undefined]. *)
Theorem withRetry_fallthrough_unreachable {St T} `{Logger St}
    (operation : St -> (T + JsError) * St) (maxRetries baseDelay : Z) (s : St) :
  (1 <= maxRetries ->
   exists x s' tr,
     withRetry_run operation maxRetries baseDelay s = (x, s', tr) /\
     ((exists v, x = Returned v /\
                 withRetry operation maxRetries baseDelay s = (Normal v, s'))
      \/
      (x = ThrewInLoop retry_exhausted /\
       last tr (Waited 0) = Attempted maxRetries false /\
       withRetry operation maxRetries baseDelay s =
         (Abrupt (ThrownError retry_exhausted), s')))) /\
  (forall lastError s' tr,
      withRetry_run operation maxRetries baseDelay s = (FellThrough lastError, s', tr) ->
      maxRetries < 1 /\ lastError = None /\ s' = s /\ tr = [] /\
      withRetry operation maxRetries baseDelay s = (Abrupt ThrownUndefined, s)) /\
  (maxRetries < 1 ->
   withRetry_run operation maxRetries baseDelay s = (FellThrough None, s, []) /\
   withRetry operation maxRetries baseDelay s = (Abrupt ThrownUndefined, s)).
Proof.
  assert (Hin : 1 <= maxRetries ->
    exists x s' tr,
     withRetry_run operation maxRetries baseDelay s = (x, s', tr) /\
     ((exists v, x = Returned v /\
                 withRetry operation maxRetries baseDelay s = (Normal v, s'))
      \/
      (x = ThrewInLoop retry_exhausted /\
       last tr (Waited 0) = Attempted maxRetries false /\
       withRetry operation maxRetries baseDelay s =
         (Abrupt (ThrownError retry_exhausted), s')))).
  { intros Hmax.
    destruct (@retry_loop_shape St T _ operation maxRetries baseDelay
                (Z.to_nat (maxRetries - 1)) 1 None s [] eq_refl Hmax)
      as (j & s' & Hj & [[v Hv] | [Hlast Hv]]).
    - exists (Returned v), s', ([] ++ failed_rounds j 1 baseDelay
                                  ++ [Attempted (1 + Z.of_nat j) true]).
      split; [exact Hv|]. left. exists v. split; [reflexivity|].
      unfold withRetry, withRetry_run. rewrite Hv. reflexivity.
    - exists (ThrewInLoop retry_exhausted), s',
        ([] ++ failed_rounds j 1 baseDelay ++ [Attempted maxRetries false]).
      split; [exact Hv|]. right. split; [reflexivity|]. split.
      + simpl app. apply last_last.
      + unfold withRetry, withRetry_run. rewrite Hv. reflexivity. }
  assert (Hout : maxRetries < 1 ->
    withRetry_run operation maxRetries baseDelay s = (FellThrough None, s, []) /\
    withRetry operation maxRetries baseDelay s = (Abrupt ThrownUndefined, s)).
  { intros Hlt.
    assert (Hrun : withRetry_run operation maxRetries baseDelay s =
                   (FellThrough None, s, []))
      by (apply retry_loop_skipped; lia).
    split; [exact Hrun|]. unfold withRetry. rewrite Hrun. reflexivity. }
  split; [exact Hin|]. split; [|exact Hout].
  intros lastError s' tr Hrun.
  destruct (Z_lt_le_dec maxRetries 1) as [Hlt | Hge].
  - destruct (Hout Hlt) as [Hrun' Hthrow]. rewrite Hrun' in Hrun.
    inversion Hrun; subst. auto.
  - destruct (Hin Hge) as (x & s1 & tr1 & Hrun' & [[v [Hx _]] | [Hx _]]);
      rewrite Hrun' in Hrun; subst x; discriminate Hrun.
Qed.

Lemma withRetry_fallthrough_unreachable_witness :
  (exists x s' tr,
     withRetry_run (flaky 1) 3 100 (0%nat, []) = (x, s', tr) /\
     ((exists v, x = Returned v /\
                 withRetry (flaky 1) 3 100 (0%nat, []) = (Normal v, s'))
      \/
      (x = ThrewInLoop retry_exhausted /\
       last tr (Waited 0) = Attempted 3 false /\
       withRetry (flaky 1) 3 100 (0%nat, []) =
         (Abrupt (ThrownError retry_exhausted), s')))) /\
  withRetry (flaky 1) 0 100 (0%nat, []) = (Abrupt ThrownUndefined, (0%nat, [])).
Proof.
  split.
  - apply (withRetry_fallthrough_unreachable (flaky 1) 3 100 (0%nat, [])). lia.
  - apply (withRetry_fallthrough_unreachable (flaky 1) 0 100 (0%nat, [])). lia.
Defined.

(* ===================================================================== *)
(** ** The validation gate *)
(* ===================================================================== *)

Import Js Zod Validation.

Lemma validateFanSpeed_Int (z : Z) :
  validateFanSpeed (VNumber (Int z)) =
  if (1 <=? z) && (z <=? 6) then Normal (Int z)
  else validation_failure (ERROR_MESSAGES INVALID_SPEED).
Proof.
  unfold validateFanSpeed, validate_with, fanSpeedSchema, ZodNumber, validation_failure.
  cbn [flat_map number_check isInteger lt gt app or_default].
  destruct (Z.ltb_spec z 1) as [H1 | H1], (Z.ltb_spec 6 z) as [H6 | H6];
    destruct (Z.leb_spec 1 z), (Z.leb_spec z 6); try lia; reflexivity.
Qed.

Lemma validateFanSpeed_rejects (v : Value) :
  valid_speed v = false ->
  exists msg, validateFanSpeed v = validation_failure msg.
Proof.
  intros Hv. destruct v as [| | b | n | s | |]; try (eexists; reflexivity).
  destruct n as [z | fl t | | neg]; try (eexists; reflexivity).
  rewrite validateFanSpeed_Int. simpl in Hv. rewrite Hv. eexists; reflexivity.
Qed.

(** C5, as amended. For every integer [x] in 1..6 [validateFanSpeed]
    returns [x] unchanged; for every integer outside 1..6 it throws a
    [ValidationError] carrying the speed-range message; for every other
    input it throws a [ValidationError] too, carrying the schema's own
    message for the violated constraint: "Expected integer, received
    float" for a number that is not an integer, "Expected number, received
    nan" for NaN, and the expected-number message (or "Required") for a
    value that is not a number. *)
Theorem validateFanSpeed_spec :
  (forall x, 1 <= x <= 6 -> validateFanSpeed (VNumber (Int x)) = Normal (Int x)) /\
  (forall x, x < 1 \/ 6 < x ->
     validateFanSpeed (VNumber (Int x)) =
     validation_failure (ERROR_MESSAGES INVALID_SPEED)) /\
  (forall fl t,
     validateFanSpeed (VNumber (NonInt fl t)) =
     validation_failure "Expected integer, received float") /\
  (forall negative,
     validateFanSpeed (VNumber (Infinity negative)) =
     validation_failure "Expected integer, received float") /\
  validateFanSpeed (VNumber NaN) = validation_failure "Expected number, received nan" /\
  (forall v, (forall n, v <> VNumber n) ->
     validateFanSpeed v =
     validation_failure (default_invalid_type "number" (getParsedType v))) /\
  (forall v, valid_speed v = false ->
     exists msg, validateFanSpeed v = validation_failure msg).
Proof.
  split; [|split; [|split; [|split; [|split; [|split]]]]].
  - intros x Hx. rewrite validateFanSpeed_Int.
    replace (1 <=? x) with true by (symmetry; apply Z.leb_le; lia).
    replace (x <=? 6) with true by (symmetry; apply Z.leb_le; lia).
    reflexivity.
  - intros x Hx. rewrite validateFanSpeed_Int.
    destruct (Z.leb_spec 1 x), (Z.leb_spec x 6); try lia; reflexivity.
  - intros fl t. unfold validateFanSpeed, validate_with, fanSpeedSchema, ZodNumber.
    cbn [flat_map number_check isInteger app]. reflexivity.
  - intros negative. unfold validateFanSpeed, validate_with, fanSpeedSchema, ZodNumber.
    cbn [flat_map number_check isInteger app]. reflexivity.
  - reflexivity.
  - intros v Hv. destruct v; try reflexivity. exfalso. apply (Hv n). reflexivity.
  - apply validateFanSpeed_rejects.
Qed.

Lemma validateFanSpeed_spec_witness :
  validateFanSpeed (VNumber (Int 4)) = Normal (Int 4) /\
  validateFanSpeed (VNumber (Int 7)) = validation_failure (ERROR_MESSAGES INVALID_SPEED).
Proof.
  split.
  - apply (proj1 validateFanSpeed_spec 4). lia.
  - apply (proj1 (proj2 validateFanSpeed_spec) 7). lia.
Defined.

(** C5 as stated fails: the number 2.5 is outside the valid range, and
    the [ValidationError] it gets does not carry the speed-range message
    but the integer check's. *)
Lemma validateFanSpeed_nonint_counterexample :
  valid_speed (VNumber (NonInt 2 "2.5")) = false /\
  validateFanSpeed (VNumber (NonInt 2 "2.5")) =
    validation_failure "Expected integer, received float" /\
  validateFanSpeed (VNumber (NonInt 2 "2.5")) <>
    validation_failure (ERROR_MESSAGES INVALID_SPEED).
Proof.
  split; [reflexivity|]. split; [reflexivity|]. discriminate.
Qed.

Lemma validateIpAddress_String (s : string) :
  validateIpAddress (VString s) =
  if isValidIP s then
    if String.eqb s "0.0.0.0" then validation_failure "IP address cannot be 0.0.0.0"
    else Normal s
  else validation_failure "Invalid ip".
Proof.
  unfold validateIpAddress, validate_with, ipAddressSchema, ZodString_ip, refine.
  destruct (isValidIP s); destruct (String.eqb s "0.0.0.0"); reflexivity.
Qed.

(** [validateIpAddress] in terms of the two patterns of the schema
    library: a string is accepted exactly when it matches one of them and
    is not "0.0.0.0". *)
Lemma validateIpAddress_by_pattern :
  (forall s, isValidIP s = true -> s <> "0.0.0.0" ->
     validateIpAddress (VString s) = Normal s) /\
  validateIpAddress (VString "0.0.0.0") =
    validation_failure "IP address cannot be 0.0.0.0" /\
  (forall s, isValidIP s = false ->
     validateIpAddress (VString s) = validation_failure "Invalid ip") /\
  (forall v, (forall s, v <> VString s) ->
     validateIpAddress v =
     validation_failure (default_invalid_type "string" (getParsedType v))).
Proof.
  split; [|split; [|split]].
  - intros s Hip Hz. rewrite validateIpAddress_String, Hip.
    apply String.eqb_neq in Hz. rewrite Hz. reflexivity.
  - reflexivity.
  - intros s Hip. rewrite validateIpAddress_String, Hip. reflexivity.
  - intros v Hv. destruct v; try reflexivity. exfalso. apply (Hv s). reflexivity.
Qed.

(** C6. The claim wants every input that does not parse as IPv4 rejected,
    and the service talks through a [udp4] socket; the schema, however,
    calls the library's [ip()] check without restricting the version. So
    the code accepts "::1": a string without a dot, which does not match
    the IPv4 pattern, is returned by [validateIpAddress], passes the type
    guard, and lets the start-up check succeed as the configured address,
    while the IPv4 literals behave as the claim says ("192.168.1.13"
    accepted, "0.0.0.0" and "256.1.1.1" rejected). *)
Theorem validateIpAddress_accepts_ipv6 :
  contains "." "::1" = false /\
  Regex.test ipv4Regex "::1" = false /\
  validateIpAddress (VString "::1") = Normal "::1" /\
  isValidIpAddress (VString "::1") = true /\
  (forall w, Service.startup (Service.mkConfig "::1" 5600 5000 3) w = (Normal tt, w)) /\
  validateIpAddress (VString "192.168.1.13") = Normal "192.168.1.13" /\
  validateIpAddress (VString "0.0.0.0") =
    validation_failure "IP address cannot be 0.0.0.0" /\
  validateIpAddress (VString "256.1.1.1") = validation_failure "Invalid ip".
Proof.
  repeat split; try (vm_compute; reflexivity).
Qed.

(* ===================================================================== *)
(** ** The public operations *)
(* ===================================================================== *)

Import Service.

(** *** What reaches the socket *)

Lemma extends_sent_refl str w : extends_sent str w w.
Proof. exists 0%nat. simpl. rewrite app_nil_r. reflexivity. Qed.

Lemma extends_sent_trans str w1 w2 w3 :
  extends_sent str w1 w2 -> extends_sent str w2 w3 -> extends_sent str w1 w3.
Proof.
  intros [k1 H1] [k2 H2]. exists (k1 + k2)%nat.
  rewrite H2, H1, repeat_app, app_assoc. reflexivity.
Qed.

Lemma extends_sent_emit str l w : extends_sent str w (emit l w).
Proof. exists 0%nat. simpl. rewrite app_nil_r. reflexivity. Qed.

Lemma extends_sent_send_attempt str w r w1 :
  send_attempt str w = (r, w1) -> extends_sent str w w1.
Proof.
  unfold send_attempt. intros Hrun.
  destruct (socket w).
  - destruct (network w (List.length (sent w)));
      injection Hrun as _ <-; exists 1%nat; reflexivity.
  - injection Hrun as _ <-. apply extends_sent_refl.
Qed.

Lemma only_sends_ret {A} str (a : A) : only_sends str (ret a).
Proof. intros w. apply extends_sent_refl. Qed.

Lemma only_sends_throw {A} str t : only_sends str (@throw World A t).
Proof. intros w. apply extends_sent_refl. Qed.

Lemma only_sends_logger str l msg m : only_sends str (logger l msg m).
Proof. intros w. apply extends_sent_emit. Qed.

Lemma only_sends_bind {A B} str (m : M World A) (k : A -> M World B) :
  only_sends str m -> (forall a, only_sends str (k a)) -> only_sends str (bind m k).
Proof.
  intros Hm Hk w. unfold bind. specialize (Hm w).
  destruct (m w) as [[a | t] w1]; simpl in *.
  - eapply extends_sent_trans; [exact Hm | apply Hk].
  - exact Hm.
Qed.

Lemma only_sends_try_catch {A} str (body : M World A) handler :
  only_sends str body -> (forall t, only_sends str (handler t)) ->
  only_sends str (try_catch body handler).
Proof.
  intros Hb Hh w. unfold try_catch. specialize (Hb w).
  destruct (body w) as [[a | t] w1]; simpl in *.
  - exact Hb.
  - eapply extends_sent_trans; [exact Hb | apply Hh].
Qed.

Lemma only_sends_withRetry str maxRetries baseDelay :
  only_sends str (withRetry (send_attempt str) maxRetries baseDelay).
Proof.
  intros w. unfold withRetry, withRetry_run.
  pose proof (@retry_loop_preserves World unit _ (send_attempt str)
                (extends_sent str) (extends_sent_refl str)
                (extends_sent_trans str)
                (extends_sent_send_attempt str)
                (extends_sent_emit str)
                maxRetries baseDelay _ 1 None w [] eq_refl) as Hloop.
  destruct (retry_loop (send_attempt str) maxRetries baseDelay 1 None w [])
    as [[x w'] tr]. exact Hloop.
Qed.

Create HintDb sends discriminated.
#[export] Hint Resolve only_sends_ret only_sends_throw only_sends_logger
  only_sends_withRetry : sends.
#[export] Hint Extern 2 (only_sends _ (bind _ _)) =>
  apply only_sends_bind; [|intros ?] : sends.
#[export] Hint Extern 2 (only_sends _ (try_catch _ _)) =>
  apply only_sends_try_catch; [|intros ?] : sends.

Lemma only_sends_sendUdpMessage config message :
  only_sends (JSON_stringify message) (sendUdpMessage config message).
Proof. unfold sendUdpMessage. auto 10 with sends. Qed.

#[export] Hint Resolve only_sends_sendUdpMessage : sends.

Lemma only_sends_setFanSpeed config z :
  1 <= z <= 6 ->
  only_sends (JSON_stringify (mkMessage None None (Some (Int z))))
    (setFanSpeed config (VNumber (Int z))).
Proof.
  intros Hz. unfold setFanSpeed.
  apply only_sends_try_catch.
  - intros w. unfold bind at 1, lift. rewrite validateFanSpeed_Int.
    replace (1 <=? z) with true by (symmetry; apply Z.leb_le; lia).
    replace (z <=? 6) with true by (symmetry; apply Z.leb_le; lia).
    cbn [andb]. revert w.
    change (only_sends (JSON_stringify (mkMessage None None (Some (Int z))))
      (bind (logger LInfo "Setting fan speed" [("speed", Number_toString (Int z))])
         (fun _ => bind (sendUdpMessage config (mkMessage None None (Some (Int z))))
            (fun _ => logger LInfo "Fan speed set successfully"
                        [("speed", Number_toString (Int z))])))).
    auto 10 with sends.
  - intros t. destruct (is_ValidationError t); auto 10 with sends.
Qed.

(** *** At least one datagram on a running socket *)

Lemma sends_some_extends str w w1 w2 k :
  sent w1 = sent w ++ repeat str (S k) ->
  extends_sent str w1 w2 ->
  exists k', sent w2 = sent w ++ repeat str (S k').
Proof.
  intros H1 [k2 H2]. exists (k + k2)%nat.
  rewrite H2, H1, <- app_assoc, <- repeat_app. reflexivity.
Qed.

Lemma sends_some_after_logger {A} str l msg meta (m : M World A) :
  sends_some str m -> sends_some str (bind (logger l msg meta) (fun _ => m)).
Proof.
  intros Hm w Hopen. unfold bind, logger. cbn beta iota.
  assert (Hopen' : socket (emit (mkLog l msg meta) w) = Open) by exact Hopen.
  destruct (Hm _ Hopen') as [k Hk].
  exists k. rewrite Hk. reflexivity.
Qed.

Lemma sends_some_then {A B} str (m : M World A) (k : A -> M World B) :
  sends_some str m -> (forall a, only_sends str (k a)) -> sends_some str (bind m k).
Proof.
  intros Hm Hk w Hopen. unfold bind. destruct (Hm w Hopen) as [n Hn].
  destruct (m w) as [[a | t] w1]; simpl in *.
  - eapply sends_some_extends; [exact Hn | apply Hk].
  - exists n. exact Hn.
Qed.

Lemma sends_some_try_catch {A} str (body : M World A) handler :
  sends_some str body -> (forall t, only_sends str (handler t)) ->
  sends_some str (try_catch body handler).
Proof.
  intros Hb Hh w Hopen. unfold try_catch. destruct (Hb w Hopen) as [n Hn].
  destruct (body w) as [[a | t] w1]; simpl in *.
  - exists n. exact Hn.
  - eapply sends_some_extends; [exact Hn | apply Hh].
Qed.

Lemma sends_some_withRetry str maxRetries baseDelay :
  1 <= maxRetries ->
  sends_some str (withRetry (send_attempt str) maxRetries baseDelay).
Proof.
  intros Hmax w Hopen. unfold withRetry, withRetry_run.
  rewrite retry_loop_step.
  replace (1 <=? maxRetries) with true by (symmetry; apply Z.leb_le; lia).
  unfold send_attempt at 1. rewrite Hopen.
  destruct (network w (List.length (sent w))) as [| err |].
  - exists 0%nat. reflexivity.
  - destruct (1 =? maxRetries); [exists 0%nat; reflexivity|].
    match goal with
    | |- context [retry_loop ?op ?mx ?b ?a ?le ?s ?tr] =>
        pose proof (@retry_loop_preserves World unit _ (send_attempt str)
                      (extends_sent str) (extends_sent_refl str)
                      (extends_sent_trans str) (extends_sent_send_attempt str)
                      (extends_sent_emit str) mx b _ a le s tr eq_refl) as Hloop;
        destruct (retry_loop op mx b a le s tr) as [[x w'] tr']
    end.
    eapply (sends_some_extends str w _ w' 0); [|exact Hloop]. reflexivity.
  - destruct (1 =? maxRetries); [exists 0%nat; reflexivity|].
    match goal with
    | |- context [retry_loop ?op ?mx ?b ?a ?le ?s ?tr] =>
        pose proof (@retry_loop_preserves World unit _ (send_attempt str)
                      (extends_sent str) (extends_sent_refl str)
                      (extends_sent_trans str) (extends_sent_send_attempt str)
                      (extends_sent_emit str) mx b _ a le s tr eq_refl) as Hloop;
        destruct (retry_loop op mx b a le s tr) as [[x w'] tr']
    end.
    eapply (sends_some_extends str w _ w' 0); [|exact Hloop]. reflexivity.
Qed.

Lemma sends_some_sendUdpMessage config message :
  1 <= UDP_RETRY_ATTEMPTS config ->
  sends_some (JSON_stringify message) (sendUdpMessage config message).
Proof.
  intros Hn. unfold sendUdpMessage.
  apply sends_some_after_logger, sends_some_try_catch.
  - apply sends_some_withRetry. exact Hn.
  - intros t. auto 10 with sends.
Qed.

Lemma sends_some_setFanSpeed config z :
  1 <= UDP_RETRY_ATTEMPTS config ->
  1 <= z <= 6 ->
  sends_some (JSON_stringify (mkMessage None None (Some (Int z))))
    (setFanSpeed config (VNumber (Int z))).
Proof.
  intros Hn Hz. unfold setFanSpeed.
  apply sends_some_try_catch.
  - intros w. unfold bind at 1, lift. rewrite validateFanSpeed_Int.
    replace (1 <=? z) with true by (symmetry; apply Z.leb_le; lia).
    replace (z <=? 6) with true by (symmetry; apply Z.leb_le; lia).
    cbn [andb]. revert w.
    change (sends_some (JSON_stringify (mkMessage None None (Some (Int z))))
      (bind (logger LInfo "Setting fan speed" [("speed", Number_toString (Int z))])
         (fun _ => bind (sendUdpMessage config (mkMessage None None (Some (Int z))))
            (fun _ => logger LInfo "Fan speed set successfully"
                        [("speed", Number_toString (Int z))])))).
    apply sends_some_after_logger, sends_some_then.
    + apply sends_some_sendUdpMessage. exact Hn.
    + intros a. auto with sends.
  - intros t. destruct (is_ValidationError t); auto 10 with sends.
Qed.

Lemma sends_some_simple_operation config message before after failed :
  1 <= UDP_RETRY_ATTEMPTS config ->
  sends_some (JSON_stringify message)
    (try_catch
       (bind (logger LInfo before [])
          (fun _ => bind (sendUdpMessage config message)
             (fun _ => logger LInfo after [])))
       (fun error =>
          bind (logger LError failed [("error", describe error)])
            (fun _ => throw error))).
Proof.
  intros Hn. apply sends_some_try_catch.
  - apply sends_some_after_logger, sends_some_then.
    + apply sends_some_sendUdpMessage. exact Hn.
    + intros a. auto with sends.
  - intros t. auto 10 with sends.
Qed.

(** *** Validation comes first *)

(** C4. For every input outside the valid range (anything but an integer
    in 1..6, for example 7) [setFanSpeed] throws the [ValidationError] of
    the validator at once: nothing is handed to the socket, the socket is
    untouched, and the only trace is one warning in the log, so no attempt
    and no retry took place. *)
Theorem setFanSpeed_rejects_before_sending config (speed : Value) (w : World) :
  valid_speed speed = false ->
  exists msg w',
    validateFanSpeed speed = validation_failure msg /\
    setFanSpeed config speed w = (Abrupt (ThrownError (ValidationError msg)), w') /\
    sent w' = sent w /\
    socket w' = socket w /\
    logs w' = logs w ++ [mkLog LWarn "Invalid fan speed provided"
                           [("speed", Value_toString speed); ("error", msg)]].
Proof.
  intros Hv. destruct (validateFanSpeed_rejects speed Hv) as [msg Hmsg].
  exists msg. eexists. split; [exact Hmsg|].
  unfold setFanSpeed, try_catch, bind, lift. rewrite Hmsg.
  unfold validation_failure. cbn. repeat split; reflexivity.
Qed.

Lemma setFanSpeed_rejects_before_sending_witness :
  exists msg w',
    validateFanSpeed (VNumber (Int 7)) = validation_failure msg /\
    setFanSpeed example_config (VNumber (Int 7)) (fresh_world (fun _ => Delivered)) =
      (Abrupt (ThrownError (ValidationError msg)), w') /\
    sent w' = sent (fresh_world (fun _ => Delivered)) /\
    socket w' = socket (fresh_world (fun _ => Delivered)) /\
    logs w' = logs (fresh_world (fun _ => Delivered))
                ++ [mkLog LWarn "Invalid fan speed provided"
                      [("speed", Value_toString (VNumber (Int 7))); ("error", msg)]].
Proof.
  apply (setFanSpeed_rejects_before_sending example_config (VNumber (Int 7))
           (fresh_world (fun _ => Delivered))).
  reflexivity.
Defined.

(** *** The command encoding *)

Lemma valid_speed_inv (v : Value) :
  valid_speed v = true -> exists z, v = VNumber (Int z) /\ 1 <= z <= 6.
Proof.
  destruct v as [| | b | n | s | |]; try discriminate.
  destruct n as [z | fl t | | neg]; try discriminate.
  simpl. intros Hz. apply andb_prop in Hz. destruct Hz as [H1 H6].
  apply Z.leb_le in H1. apply Z.leb_le in H6. exists z. split; [reflexivity | lia].
Qed.

Lemma small_speed_cases (z : Z) :
  1 <= z <= 6 -> z = 1 \/ z = 2 \/ z = 3 \/ z = 4 \/ z = 5 \/ z = 6.
Proof. lia. Qed.

(** C8. Each logical command in range (led on/off, power on/off, speed n
    with n an integer in 1..6) is encoded as a message with exactly one
    populated field, and the text put on the wire is, character by
    character, the JSON object with that one member: the field name
    between double quotes, a colon, and [true], [false] or the digit of
    the speed. The names of the other two fields and the text "null" do
    not occur in it. Whatever the state the operation is invoked in,
    every datagram it hands to the socket is that same payload, and on a
    running socket with at least one attempt allowed there is at least
    one. *)
Theorem encode_single_field config (c : Command) (m : UdpMessage) :
  valid_command c = true ->
  encode c = Some m ->
  populated m = 1%nat /\
  JSON_stringify m = payload_text c /\
  JSON_stringify m =
    String.append "{" (String.append (member (field_of c) (value_of c)) "}") /\
  (forall key, In key ["led"; "power"; "speed"] -> key <> field_of c ->
               contains key (JSON_stringify m) = false) /\
  contains "null" (JSON_stringify m) = false /\
  only_sends (JSON_stringify m) (dispatch config c) /\
  (1 <= UDP_RETRY_ATTEMPTS config -> sends_some (JSON_stringify m) (dispatch config c)).
Proof.
  intros Hvalid Henc.
  destruct c as [| | | | level]; cbn [encode] in Henc.
  1-4: injection Henc as <-;
    (split; [reflexivity|]); (split; [reflexivity|]); (split; [reflexivity|]);
    (split; [|split; [|split]]);
    [ intros key [<- | [<- | [<- | []]]] Hne;
      solve [reflexivity | exfalso; apply Hne; reflexivity]
    | reflexivity
    | cbn [dispatch]; unfold turnOnLed, turnOffLed, turnOnFan, turnOffFan;
      auto 10 with sends
    | intros Hn; cbn [dispatch];
      unfold turnOnLed, turnOffLed, turnOnFan, turnOffFan;
      apply sends_some_simple_operation; exact Hn ].
  cbn [valid_command] in Hvalid.
  destruct (valid_speed_inv level Hvalid) as (z & -> & Hz).
  injection Henc as <-.
  split; [reflexivity|]. split; [|split; [reflexivity|split; [|split; [|split]]]].
  - destruct (small_speed_cases z Hz) as [-> | [-> | [-> | [-> | [-> | ->]]]]];
      reflexivity.
  - intros key [<- | [<- | [<- | []]]] Hne;
      try (exfalso; apply Hne; reflexivity);
      destruct (small_speed_cases z Hz) as [-> | [-> | [-> | [-> | [-> | ->]]]]];
      reflexivity.
  - destruct (small_speed_cases z Hz) as [-> | [-> | [-> | [-> | [-> | ->]]]]];
      reflexivity.
  - cbn [dispatch]. apply only_sends_setFanSpeed. exact Hz.
  - intros Hn. cbn [dispatch]. apply sends_some_setFanSpeed; assumption.
Qed.

Lemma encode_single_field_witness :
  populated (mkMessage None None (Some (Int 4))) = 1%nat /\
  JSON_stringify (mkMessage None None (Some (Int 4))) =
    String "{" (String "034" (String.append "speed" (String "034" ":4}"))) /\
  JSON_stringify (mkMessage None None (Some (Int 4))) =
    String.append "{" (String.append (member "speed" "4") "}") /\
  only_sends (JSON_stringify (mkMessage None None (Some (Int 4))))
    (dispatch example_config (SetSpeed (VNumber (Int 4)))) /\
  sends_some (JSON_stringify (mkMessage None None (Some (Int 4))))
    (dispatch example_config (SetSpeed (VNumber (Int 4)))).
Proof.
  destruct (encode_single_field example_config (SetSpeed (VNumber (Int 4)))
              (mkMessage None None (Some (Int 4))) eq_refl eq_refl)
    as (Hone & Hwire & Htext & _ & _ & Hsend & Hsome).
  split; [exact Hone|]. split; [exact Hwire|]. split; [exact Htext|].
  split; [exact Hsend|].
  apply Hsome. simpl. lia.
Defined.

(** *** The health probe *)

Lemma sendUdpMessage_throws config message w t :
  1 <= UDP_RETRY_ATTEMPTS config ->
  fst (sendUdpMessage config message w) = Abrupt t ->
  t = ThrownError retry_exhausted.
Proof.
  intros Hn. unfold sendUdpMessage, bind, logger, try_catch, withRetry, withRetry_run, throw.
  match goal with
  | |- context [retry_loop _ _ _ 1 None ?s0 []] =>
      destruct (@retry_loop_shape World unit _
                  (send_attempt (JSON_stringify message))
                  (UDP_RETRY_ATTEMPTS config) 100
                  (Z.to_nat (UDP_RETRY_ATTEMPTS config - 1)) 1 None s0 [] eq_refl Hn)
        as (j & s' & _ & [[v Hrun] | [_ Hrun]])
  end; rewrite Hrun; cbn; intros H; [discriminate H | injection H as <-; reflexivity].
Qed.

Lemma sendUdpMessage_no_attempts config message w :
  UDP_RETRY_ATTEMPTS config < 1 ->
  fst (sendUdpMessage config message w) = Abrupt ThrownUndefined.
Proof.
  intros Hn. unfold sendUdpMessage, bind, logger, try_catch, withRetry, withRetry_run, throw.
  rewrite retry_loop_skipped by lia. reflexivity.
Qed.

(** [checkFanHealth] in terms of the outcome of its send. *)
Lemma checkFanHealth_run config w :
  exists w',
    checkFanHealth config w =
    (Normal
       match fst (sendUdpMessage config (mkMessage (Some false) None None)
                    (emit (mkLog LDebug "Checking fan health" []) w)) with
       | Normal _ => mkHealth healthy "Fan is responding to UDP messages"
       | Abrupt (ThrownError (PlainError m)) =>
           mkHealth unhealthy (String.append "Fan is not responding: " m)
       | Abrupt (ThrownError (FanControlError _ m _ _)) =>
           mkHealth unhealthy (String.append "Fan is not responding: " m)
       | Abrupt ThrownUndefined =>
           mkHealth unhealthy "Fan is not responding: undefined"
       end, w').
Proof.
  unfold checkFanHealth, try_catch, bind, logger, ret, throw.
  destruct (sendUdpMessage config (mkMessage (Some false) None None)
              (emit (mkLog LDebug "Checking fan health" []) w))
    as [[u | [[m | n m c sc] |]] w1]; cbn; eexists; reflexivity.
Qed.

(** C3. [checkFanHealth] never throws. In every state it returns a status:
    [healthy] with "Fan is responding to UDP messages" when the probe send
    succeeds, and when the send path throws, [unhealthy] with the detail
    "Fan is not responding: " followed by the message of the error thrown,
    or by "undefined" when what was thrown is [undefined]. As the send
    path fails only by exhaustion, or with [undefined] under a policy
    without attempts, there are three results in all. *)
Theorem checkFanHealth_never_raises config (w : World) :
  exists h w',
    checkFanHealth config w = (Normal h, w') /\
    match fst (sendUdpMessage config probe
                 (emit (mkLog LDebug "Checking fan health" []) w)) with
    | Normal _ => h = mkHealth healthy "Fan is responding to UDP messages"
    | Abrupt (ThrownError (PlainError m)) =>
        h = mkHealth unhealthy (String.append "Fan is not responding: " m)
    | Abrupt (ThrownError (FanControlError _ m _ _)) =>
        h = mkHealth unhealthy (String.append "Fan is not responding: " m)
    | Abrupt ThrownUndefined =>
        h = mkHealth unhealthy "Fan is not responding: undefined"
    end /\
    (h = mkHealth healthy "Fan is responding to UDP messages" \/
     (1 <= UDP_RETRY_ATTEMPTS config /\
      h = mkHealth unhealthy
            "Fan is not responding: Maximum retry attempts exceeded") \/
     (UDP_RETRY_ATTEMPTS config < 1 /\
      h = mkHealth unhealthy "Fan is not responding: undefined")).
Proof.
  destruct (checkFanHealth_run config w) as [w' Hrun]. unfold probe.
  eexists; exists w'. split; [exact Hrun|].
  destruct (fst (sendUdpMessage config (mkMessage (Some false) None None)
                   (emit (mkLog LDebug "Checking fan health" []) w)))
    as [u | t] eqn:Hsend.
  - split; [reflexivity | left; reflexivity].
  - destruct (Z_lt_le_dec (UDP_RETRY_ATTEMPTS config) 1) as [Hlt | Hge].
    + rewrite (sendUdpMessage_no_attempts config _ _ Hlt) in Hsend.
      injection Hsend as <-. split; [reflexivity | right; right; auto].
    + apply (sendUdpMessage_throws config _ _ t Hge) in Hsend. subst t.
      split; [reflexivity | right; left; auto].
Qed.

(** Under [unreachable] every attempt is rejected with the timeout error,
    and the state stays [unreachable]. *)
Lemma send_attempt_unreachable str w :
  unreachable w ->
  exists e w1, send_attempt str w = (inr e, w1) /\ unreachable w1.
Proof.
  intros [Hopen Hnet]. unfold send_attempt. rewrite Hopen, Hnet.
  eexists; eexists. split; [reflexivity|]. split; [reflexivity | exact Hnet].
Qed.

Lemma emit_unreachable l w : unreachable w -> unreachable (emit l w).
Proof. intros [Hopen Hnet]. split; assumption. Qed.

Lemma sendUdpMessage_unreachable config message w :
  unreachable w ->
  1 <= UDP_RETRY_ATTEMPTS config ->
  exists w',
    sendUdpMessage config message w = (Abrupt (ThrownError retry_exhausted), w').
Proof.
  intros Hw Hn. unfold sendUdpMessage.
  unfold bind at 1. unfold logger at 1. unfold try_catch, withRetry, withRetry_run.
  destruct (@retry_loop_exhausts World unit _
              (send_attempt (JSON_stringify message)) unreachable
              (send_attempt_unreachable (JSON_stringify message))
              emit_unreachable
              (UDP_RETRY_ATTEMPTS config) 100 _ 1 None
              (emit (mkLog LDebug "Sending UDP message"
                       [("message", JSON_stringify message);
                        ("target", String.append (FAN_IP config)
                           (String.append ":" (string_of_Z (FAN_PORT config))))]) w)
              [] eq_refl Hn (emit_unreachable _ w Hw))
    as (w1 & _ & Hrun).
  rewrite Hrun. cbn. eexists. reflexivity.
Qed.

(** C7, as amended. When every attempt of the probe times out (and the
    policy allows at least one attempt), [checkFanHealth] does not throw:
    it returns [unhealthy] with the detail "Fan is not responding: Maximum
    retry attempts exceeded". The detail is the generic exhaustion
    message; it does not mention the timeout. *)
Theorem checkFanHealth_all_timeouts config (w : World) :
  unreachable w ->
  1 <= UDP_RETRY_ATTEMPTS config ->
  exists w',
    checkFanHealth config w =
      (Normal (mkHealth unhealthy
                 "Fan is not responding: Maximum retry attempts exceeded"), w') /\
    contains "timed out"
      "Fan is not responding: Maximum retry attempts exceeded" = false.
Proof.
  intros Hw Hn.
  destruct (sendUdpMessage_unreachable config probe
              (emit (mkLog LDebug "Checking fan health" []) w)
              (emit_unreachable _ w Hw) Hn) as [w1 Hsend].
  unfold checkFanHealth, try_catch.
  unfold bind at 1. unfold logger at 1. unfold bind at 1.
  unfold probe in Hsend. rewrite Hsend. cbn.
  eexists. split; reflexivity.
Qed.

Lemma checkFanHealth_all_timeouts_witness :
  exists w',
    checkFanHealth example_config (fresh_world (fun _ => NoCallback)) =
      (Normal (mkHealth unhealthy
                 "Fan is not responding: Maximum retry attempts exceeded"), w') /\
    contains "timed out"
      "Fan is not responding: Maximum retry attempts exceeded" = false.
Proof.
  apply (checkFanHealth_all_timeouts example_config (fresh_world (fun _ => NoCallback))).
  - split; reflexivity.
  - simpl. lia.
Defined.

(** C7 as stated fails: with three attempts that all time out, the detail
    returned does not contain "timed out", nor any other mention of time;
    the timeout message "Operation timed out" only reaches the log. *)
Lemma checkFanHealth_timeout_counterexample :
  let r := checkFanHealth example_config (fresh_world (fun _ => NoCallback)) in
  exists h,
    fst r = Normal h /\
    status h = unhealthy /\
    details h = "Fan is not responding: Maximum retry attempts exceeded" /\
    contains "timed out" (details h) = false /\
    contains (ERROR_MESSAGES TIMEOUT) (details h) = false /\
    contains "time" (details h) = false /\
    List.length (sent (snd r)) = 3%nat.
Proof.
  eexists. vm_compute. repeat split; reflexivity.
Qed.

(** *** Shutdown *)

(** C9. [cleanup] never throws, whatever the state of the socket, and
    leaves the socket closed; called twice in succession, the second call
    finds the socket closed, returns normally all the same, and changes
    nothing but the log. *)
Theorem cleanup_idempotent (w : World) :
  exists w1 w2,
    cleanup w = (Normal tt, w1) /\
    cleanup w1 = (Normal tt, w2) /\
    bind cleanup (fun _ => cleanup) w = (Normal tt, w2) /\
    socket w1 = Closed /\
    socket w2 = Closed /\
    sent w2 = sent w /\
    logs w2 = logs w1 ++ [mkLog LInfo "Cleaning up UDP client" [];
                          mkLog LError "Error during UDP client cleanup"
                            [("error", "Not running")]].
Proof.
  unfold cleanup, try_catch, bind, logger, client_close.
  destruct w as [sock out net lg]. destruct sock; cbn;
    eexists; eexists; repeat split; try reflexivity.
  all: cbn; rewrite <- ?app_assoc; reflexivity.
Qed.


(* ===================================================================== *)
(** ** Further properties of the retry executor *)
(* ===================================================================== *)

Lemma total_app l1 l2 : total (l1 ++ l2) = total l1 + total l2.
Proof.
  unfold total. induction l1 as [|d l1 IH]; cbn [app fold_right]; [reflexivity|].
  rewrite IH. lia.
Qed.

Lemma total_doubling (b : Z) (j : nat) :
  total (List.map (fun i => b * 2 ^ (1 + Z.of_nat i - 1)) (seq 0 j)) =
  b * (2 ^ Z.of_nat j - 1).
Proof.
  induction j as [|j IH]; [cbn; lia|].
  rewrite seq_S, map_app, total_app, IH. cbn [List.map total fold_right Nat.add].
  replace (1 + Z.of_nat j - 1) with (Z.of_nat j) by lia.
  replace (Z.of_nat (S j)) with (Z.of_nat j + 1) by lia.
  rewrite Z.pow_add_r by lia. lia.
Qed.

(** The trace of a run is empty, or some failed rounds and a last call. *)
Lemma withRetry_run_trace {St T} `{Logger St}
    (operation : St -> (T + JsError) * St) (maxRetries baseDelay : Z) (s : St) :
  (maxRetries < 1 /\ snd (withRetry_run operation maxRetries baseDelay s) = []) \/
  exists (j : nat) (r : bool),
    Z.of_nat j < maxRetries /\
    snd (withRetry_run operation maxRetries baseDelay s) =
      failed_rounds j 1 baseDelay ++ [Attempted (Z.of_nat j + 1) r].
Proof.
  destruct (Z_lt_le_dec maxRetries 1) as [Hlt | Hge].
  - left. split; [exact Hlt|]. unfold withRetry_run.
    rewrite retry_loop_skipped by lia. reflexivity.
  - right.
    destruct (@retry_loop_shape St T _ operation maxRetries baseDelay
                (Z.to_nat (maxRetries - 1)) 1 None s [] eq_refl Hge)
      as (j & s' & Hj & Hcase).
    remember (1 + Z.of_nat j) as a eqn:Ha.
    unfold withRetry_run.
    destruct Hcase as [[v Hv] | [Hlast Hv]]; rewrite Hv; cbn [snd app].
    + exists j, true. split; [lia|]. do 3 f_equal. lia.
    + exists j, false. split; [lia|]. do 3 f_equal. lia.
Qed.

Lemma invocations_rounds j from baseDelay k r :
  invocations (failed_rounds j from baseDelay ++ [Attempted k r]) = S j.
Proof.
  unfold invocations. rewrite attempts_of_app, attempts_of_failed_rounds.
  rewrite length_app, length_map, length_seq. cbn. lia.
Qed.

(** Equal up to integer arithmetic under the same constructors. *)
Ltac arith_eq := solve [reflexivity | lia | progress f_equal; arith_eq].

(** Positions in a trace of failed rounds and a last call, counted from
    attempt [from]: calls sit at the even positions, waits at the odd
    ones, and a wait is always followed by the next call. *)
Lemma rounds_positions baseDelay r :
  forall (j : nat) (from : Z) (i : nat),
    let tr := failed_rounds j from baseDelay ++ [Attempted (from + Z.of_nat j) r] in
    (forall d, nth_error tr (2 * i + 1) = Some d ->
       nth_error tr (2 * i) = Some (Attempted (from + Z.of_nat i) false) /\
       d = Waited (baseDelay * 2 ^ (from + Z.of_nat i - 1)) /\
       exists r', nth_error tr (2 * i + 2) =
                  Some (Attempted (from + Z.of_nat i + 1) r')) /\
    (forall e, nth_error tr (2 * i) = Some e ->
       exists r', e = Attempted (from + Z.of_nat i) r').
Proof.
  induction j as [|j IH]; intros from i; cbv zeta.
  - cbn [failed_rounds app]. split.
    + intros d Hd. replace (2 * i + 1)%nat with (S (2 * i)) in Hd by lia.
      cbn [nth_error] in Hd. try rewrite nth_error_nil in Hd. discriminate Hd.
    + intros e He. destruct i as [|i].
      * cbn in He. injection He as <-. exists r. arith_eq.
      * replace (2 * S i)%nat with (S (S (2 * i))) in He by lia.
        cbn [nth_error] in He. try rewrite nth_error_nil in He. discriminate He.
  - cbn [failed_rounds app]. destruct i as [|i].
    + split.
      * intros d Hd. cbn in Hd. injection Hd as <-.
        split; [change (2 * 0)%nat with 0%nat; cbn [nth_error]; arith_eq|]. split; [arith_eq|].
        destruct (IH (from + 1) 0%nat) as [_ Hev]. cbv zeta in Hev.
        change (nth_error (Attempted from false
                  :: Waited (baseDelay * 2 ^ (from - 1))
                  :: (failed_rounds j (from + 1) baseDelay ++
                      [Attempted (from + Z.of_nat (S j)) r])) (2 * 0 + 2))
          with (nth_error (failed_rounds j (from + 1) baseDelay ++
                           [Attempted (from + Z.of_nat (S j)) r]) (2 * 0)).
        replace (from + Z.of_nat (S j)) with (from + 1 + Z.of_nat j) by lia.
        destruct (nth_error (failed_rounds j (from + 1) baseDelay ++
                             [Attempted (from + 1 + Z.of_nat j) r]) (2 * 0)) as [e|] eqn:He.
        -- destruct (Hev e eq_refl) as [r' ->]. exists r'. arith_eq.
        -- exfalso. apply nth_error_None in He. rewrite length_app in He. cbn in He. lia.
      * intros e He. cbn in He. injection He as <-. exists false. arith_eq.
    + replace (2 * S i + 1)%nat with (S (S (2 * i + 1))) by lia.
      replace (2 * S i + 2)%nat with (S (S (2 * i + 2))) by lia.
      replace (2 * S i)%nat with (S (S (2 * i))) by lia.
      cbn [nth_error].
      replace (from + Z.of_nat (S j)) with (from + 1 + Z.of_nat j) by lia.
      replace (from + Z.of_nat (S i)) with (from + 1 + Z.of_nat i) by lia.
      apply (IH (from + 1) i).
Qed.

Lemma rounds_odd_position baseDelay j r (i : nat) d :
  nth_error (failed_rounds j 1 baseDelay ++ [Attempted (Z.of_nat j + 1) r])
    (2 * i + 1) = Some d ->
  nth_error (failed_rounds j 1 baseDelay ++ [Attempted (Z.of_nat j + 1) r])
    (2 * i) = Some (Attempted (Z.of_nat i + 1) false) /\
  d = Waited (baseDelay * 2 ^ Z.of_nat i) /\
  exists r', nth_error (failed_rounds j 1 baseDelay ++ [Attempted (Z.of_nat j + 1) r])
               (2 * i + 2) = Some (Attempted (Z.of_nat i + 2) r').
Proof.
  replace (Z.of_nat j + 1) with (1 + Z.of_nat j) by lia.
  intros Hd. destruct (rounds_positions baseDelay r j 1 i) as [Hodd _].
  cbv zeta in Hodd. destruct (Hodd d Hd) as (H0 & H1 & r' & H2).
  split; [rewrite H0; arith_eq|].
  split; [rewrite H1; arith_eq|].
  exists r'. rewrite H2. arith_eq.
Qed.

Lemma rounds_even_position baseDelay j r (i : nat) e :
  nth_error (failed_rounds j 1 baseDelay ++ [Attempted (Z.of_nat j + 1) r])
    (2 * i) = Some e ->
  exists r', e = Attempted (Z.of_nat i + 1) r'.
Proof.
  replace (Z.of_nat j + 1) with (1 + Z.of_nat j) by lia.
  intros He. destruct (rounds_positions baseDelay r j 1 i) as [_ Hev].
  cbv zeta in Hev. destruct (Hev e He) as [r' ->].
  exists r'. arith_eq.
Qed.

(** X1. Whatever the operation does and whatever the policy, [withRetry]
    calls it at most [maxRetries] times (not at all when [maxRetries < 1]),
    at the attempts 1, 2, 3, ... in order, and waits exactly once between
    two consecutive calls and nowhere else: the trace is empty, or it is
    call 1, wait, call 2, wait, ..., call [j+1] with [j < maxRetries],
    every call but the last rejected, the wait after call [k] being
    [baseDelay * 2^(k-1)]; it never starts with a wait and never waits
    after the last call. *)
Theorem withRetry_call_bound {St T} `{Logger St}
    (operation : St -> (T + JsError) * St) (maxRetries baseDelay : Z) (s : St) :
  let tr := snd (withRetry_run operation maxRetries baseDelay s) in
  ((maxRetries < 1 /\ tr = []) \/
   exists (j : nat) (r : bool),
     Z.of_nat j < maxRetries /\
     tr = failed_rounds j 1 baseDelay ++ [Attempted (Z.of_nat j + 1) r]) /\
  (forall (i : nat) d,
     nth_error tr (2 * i + 1) = Some d ->
     nth_error tr (2 * i) = Some (Attempted (Z.of_nat i + 1) false) /\
     d = Waited (baseDelay * 2 ^ Z.of_nat i) /\
     exists r, nth_error tr (2 * i + 2) = Some (Attempted (Z.of_nat i + 2) r)) /\
  (forall (i : nat) e,
     nth_error tr (2 * i) = Some e -> exists r, e = Attempted (Z.of_nat i + 1) r) /\
  (invocations tr <= Z.to_nat maxRetries)%nat /\
  attempts_of tr = List.map Z.of_nat (seq 1 (invocations tr)) /\
  List.length (delays_of tr) = pred (invocations tr) /\
  (forall d, last tr (Attempted 0 true) <> Waited d).
Proof.
  cbv zeta.
  pose proof (withRetry_run_trace operation maxRetries baseDelay s) as Hshape.
  split; [exact Hshape|].
  destruct Hshape as [[Hlt ->] | (j & r & Hj & ->)].
  - split; [|split].
    + intros i d Hd. rewrite nth_error_nil in Hd. discriminate Hd.
    + intros i e He. rewrite nth_error_nil in He. discriminate He.
    + cbn. repeat split; try lia. discriminate.
  - split; [|split; [|split; [|split; [|split]]]].
    + intros i d Hd. apply rounds_odd_position in Hd. exact Hd.
    + intros i e He. apply rounds_even_position in He. exact He.
    + rewrite invocations_rounds. lia.
    + rewrite invocations_rounds.
      rewrite attempts_of_app, attempts_of_failed_rounds. cbn [attempts_of flat_map app].
      rewrite seq_S, map_app. cbn [List.map]. f_equal.
      * rewrite <- seq_shift, map_map. apply map_ext. intros i. lia.
      * f_equal. lia.
    + rewrite invocations_rounds.
      rewrite delays_of_app, delays_of_failed_rounds, length_app, length_map, length_seq.
      cbn. lia.
    + intros d. rewrite last_last. discriminate.
Qed.

(** X2. The time a run spends waiting is [baseDelay * (2^f - 1)], where
    [f] is the number of calls before the last one: nothing for a first
    call that settles the run, 100 + 200 = 300 for three calls at base
    100. *)
Theorem withRetry_total_backoff {St T} `{Logger St}
    (operation : St -> (T + JsError) * St) (maxRetries baseDelay : Z) (s : St) :
  let tr := snd (withRetry_run operation maxRetries baseDelay s) in
  total (delays_of tr) = baseDelay * (2 ^ Z.of_nat (pred (invocations tr)) - 1).
Proof.
  cbv zeta.
  destruct (withRetry_run_trace operation maxRetries baseDelay s)
    as [[Hlt ->] | (j & r & Hj & ->)].
  - cbn. lia.
  - rewrite invocations_rounds. cbn [pred].
    rewrite delays_of_app, delays_of_failed_rounds, total_app, total_doubling.
    cbn. lia.
Qed.

(* ===================================================================== *)
(** ** Further properties of the validation gate *)
(* ===================================================================== *)

Lemma validatePort_Int (p : Z) :
  validatePort (VNumber (Int p)) =
  if p <? 1 then validation_failure "Port must be greater than 0"
  else if 65535 <? p then validation_failure "Port must be less than 65536"
  else Normal (Int p).
Proof.
  unfold validatePort, validate_with, portSchema, ZodNumber, validation_failure.
  cbn [flat_map number_check isInteger lt gt app or_default].
  destruct (Z.ltb_spec p 1), (Z.ltb_spec 65535 p); try lia; reflexivity.
Qed.

(** A validator built with [validate_with] returns or throws a
    [ValidationError]; it returns exactly when the schema parses. *)
Lemma validate_with_outcome {A} (schema : Value -> Inner A) fallback v :
  (exists a, parse (schema v) = Success a /\ validate_with schema fallback v = Normal a) \/
  (exists errors msg, parse (schema v) = ZodError errors /\
                      validate_with schema fallback v = validation_failure msg).
Proof.
  unfold validate_with. destruct (parse (schema v)) as [a | [| issue rest]].
  - left. exists a. auto.
  - right. exists [], fallback. auto.
  - right. exists (issue :: rest), (issue_message issue). auto.
Qed.

Lemma ZodNumber_value checks v n :
  parse (ZodNumber checks v) = Success n -> v = VNumber n.
Proof.
  unfold ZodNumber, parse. destruct v as [| | b | m | s | |]; try discriminate.
  destruct m; try discriminate;
    destruct (flat_map _ checks); try discriminate; intros [= <-]; reflexivity.
Qed.

(** X3. [validatePort] accepts exactly the integers in 1..65535 and
    returns them unchanged. An integer below 1 is rejected with "Port must
    be greater than 0", one above 65535 with "Port must be less than
    65536", a number that is not an integer with the integer check's
    message; all rejections are [ValidationError]s. *)
Theorem validatePort_spec :
  (forall p, 1 <= p <= 65535 -> validatePort (VNumber (Int p)) = Normal (Int p)) /\
  (forall p, p < 1 ->
     validatePort (VNumber (Int p)) = validation_failure "Port must be greater than 0") /\
  (forall p, 65535 < p ->
     validatePort (VNumber (Int p)) = validation_failure "Port must be less than 65536") /\
  (forall fl t,
     validatePort (VNumber (NonInt fl t)) =
     validation_failure "Expected integer, received float") /\
  (forall v n, validatePort v = Normal n ->
     exists p, v = VNumber (Int p) /\ n = Int p /\ 1 <= p <= 65535) /\
  (forall v, (exists n, validatePort v = Normal n) \/
             (exists msg, validatePort v = validation_failure msg)).
Proof.
  split; [|split; [|split; [|split; [|split]]]].
  - intros p Hp. rewrite validatePort_Int.
    destruct (Z.ltb_spec p 1), (Z.ltb_spec 65535 p); try lia; reflexivity.
  - intros p Hp. rewrite validatePort_Int.
    destruct (Z.ltb_spec p 1); try lia; reflexivity.
  - intros p Hp. rewrite validatePort_Int.
    destruct (Z.ltb_spec p 1), (Z.ltb_spec 65535 p); try lia; reflexivity.
  - intros fl t. unfold validatePort, validate_with, portSchema, ZodNumber.
    cbn [flat_map number_check isInteger app]. reflexivity.
  - intros v n Hrun.
    destruct (validate_with_outcome portSchema "Invalid port number" v)
      as [(a & Hparse & Hok) | (errors & msg & _ & Hbad)];
      unfold validatePort in Hrun.
    + rewrite Hok in Hrun. injection Hrun as <-.
      apply ZodNumber_value in Hparse. subst v.
      destruct a as [p | fl t | | neg]; try discriminate Hok.
      change (validatePort (VNumber (Int p)) = Normal (Int p)) in Hok.
      rewrite validatePort_Int in Hok.
      destruct (Z.ltb_spec p 1); [discriminate Hok|].
      destruct (Z.ltb_spec 65535 p); [discriminate Hok|].
      exists p. repeat split; lia.
    + rewrite Hbad in Hrun. discriminate Hrun.
  - intros v.
    destruct (validate_with_outcome portSchema "Invalid port number" v)
      as [(a & _ & Hok) | (errors & msg & _ & Hbad)].
    + left. exists a. exact Hok.
    + right. exists msg. exact Hbad.
Qed.

Lemma validatePort_spec_witness :
  validatePort (VNumber (Int 5600)) = Normal (Int 5600) /\
  validatePort (VNumber (Int 0)) = validation_failure "Port must be greater than 0" /\
  validatePort (VNumber (Int 65536)) = validation_failure "Port must be less than 65536".
Proof.
  split; [|split].
  - apply (proj1 validatePort_spec 5600). lia.
  - apply (proj1 (proj2 validatePort_spec) 0). lia.
  - apply (proj1 (proj2 (proj2 validatePort_spec)) 65536). lia.
Defined.

(** X4. No validator coerces or normalises: when [validateFanSpeed],
    [validatePort], [validateIpAddress] or [validateBoolean] accepts a
    value it returns that very value, so a string such as "3" or "true" is
    never taken for a number or a boolean; and whatever a validator
    rejects, it rejects with a [ValidationError]. *)
Theorem validators_strict (v : Value) :
  (forall n, validateFanSpeed v = Normal n -> v = VNumber n) /\
  (forall n, validatePort v = Normal n -> v = VNumber n) /\
  (forall s, validateIpAddress v = Normal s -> v = VString s) /\
  (forall b, validateBoolean v = Normal b -> v = VBoolean b) /\
  (forall t, validateFanSpeed v = Abrupt t \/ validatePort v = Abrupt t \/
             validateIpAddress v = Abrupt t \/ validateBoolean v = Abrupt t ->
             exists msg, t = ThrownError (ValidationError msg)).
Proof.
  assert (Hnum : forall checks fallback n,
             validate_with (ZodNumber checks) fallback v = Normal n -> v = VNumber n).
  { intros checks fallback n Hrun.
    destruct (validate_with_outcome (ZodNumber checks) fallback v)
      as [(a & Hparse & Hok) | (errors & msg & _ & Hbad)].
    - rewrite Hok in Hrun. injection Hrun as <-.
      apply ZodNumber_value with (checks := checks). exact Hparse.
    - rewrite Hbad in Hrun. discriminate Hrun. }
  assert (Hthrow : forall A (schema : Value -> Inner A) fallback t,
             validate_with schema fallback v = Abrupt t ->
             exists msg, t = ThrownError (ValidationError msg)).
  { intros A schema fallback t Hrun.
    destruct (validate_with_outcome schema fallback v)
      as [(a & _ & Hok) | (errors & msg & _ & Hbad)].
    - rewrite Hok in Hrun. discriminate Hrun.
    - rewrite Hbad in Hrun. injection Hrun as <-. exists msg. reflexivity. }
  split; [|split; [|split; [|split]]].
  - intros n. apply Hnum.
  - intros n. apply Hnum.
  - intros s Hrun. destruct v as [| | b | n | s0 | |]; try discriminate Hrun.
    rewrite validateIpAddress_String in Hrun.
    destruct (isValidIP s0); [|discriminate Hrun].
    destruct (String.eqb s0 "0.0.0.0"); [discriminate Hrun|].
    injection Hrun as <-. reflexivity.
  - intros b Hrun. destruct v as [| | b0 | n | s0 | |]; try discriminate Hrun.
    injection Hrun as <-. reflexivity.
  - intros t [Hrun | [Hrun | [Hrun | Hrun]]]; eapply Hthrow; exact Hrun.
Qed.

(** X5. Each type guard agrees with its validator: [isValidFanSpeed],
    [isValidPort] and [isValidIpAddress] answer [true] exactly for the
    values the validator of the same schema returns on, and [false]
    exactly for those it throws on. In particular the speed guard is
    [true] exactly for the integers 1..6. *)
Theorem guards_agree_with_validators (v : Value) :
  (isValidFanSpeed v = true <-> exists n, validateFanSpeed v = Normal n) /\
  (isValidPort v = true <-> exists n, validatePort v = Normal n) /\
  (isValidIpAddress v = true <-> exists s, validateIpAddress v = Normal s) /\
  isValidFanSpeed v = valid_speed v.
Proof.
  assert (Hguard : forall A (schema : Value -> Inner A) fallback,
             match parse (schema v) with Success _ => true | ZodError _ => false end = true
             <-> exists a, validate_with schema fallback v = Normal a).
  { intros A schema fallback.
    destruct (validate_with_outcome schema fallback v)
      as [(a & Hparse & Hok) | (errors & msg & Hparse & Hbad)]; rewrite Hparse.
    - split; [intros _; exists a; exact Hok | reflexivity].
    - split; [discriminate|]. intros [a Ha]. rewrite Hbad in Ha. discriminate Ha. }
  split; [apply Hguard|]. split; [apply Hguard|]. split; [apply Hguard|].
  destruct (valid_speed v) eqn:Hv.
  - apply (Hguard _ fanSpeedSchema "Invalid fan speed value").
    destruct (valid_speed_inv v Hv) as (z & -> & Hz).
    exists (Int z). change (validateFanSpeed (VNumber (Int z)) = Normal (Int z)).
    rewrite validateFanSpeed_Int.
    replace (1 <=? z) with true by (symmetry; apply Z.leb_le; lia).
    replace (z <=? 6) with true by (symmetry; apply Z.leb_le; lia).
    reflexivity.
  - destruct (isValidFanSpeed v) eqn:Hg; [|reflexivity].
    apply (Hguard _ fanSpeedSchema "Invalid fan speed value") in Hg.
    destruct Hg as [n Hn]. destruct (validateFanSpeed_rejects v Hv) as [msg Hmsg].
    unfold validateFanSpeed in Hmsg. rewrite Hmsg in Hn. discriminate Hn.
Qed.

(** X6. The start-up check passes exactly when the configured address
    matches the IPv4 or IPv6 pattern and is not "0.0.0.0" and the port is
    in 1..65535; it then changes nothing. Otherwise it throws a
    [ValidationError], after logging once and without touching the
    socket; the address is checked first, so with a bad address the error
    is the address's, whatever the port. *)
Theorem startup_spec config (w : World) :
  (fst (startup config w) = Normal tt <->
   isValidIP (FAN_IP config) = true /\ FAN_IP config <> "0.0.0.0" /\
   1 <= FAN_PORT config <= 65535) /\
  (fst (startup config w) = Normal tt -> snd (startup config w) = w) /\
  (forall t, fst (startup config w) = Abrupt t ->
     exists msg, t = ThrownError (ValidationError msg) /\
                 List.length (logs (snd (startup config w))) = S (List.length (logs w))) /\
  (forall t, validateIpAddress (VString (FAN_IP config)) = Abrupt t ->
     fst (startup config w) = Abrupt t) /\
  sent (snd (startup config w)) = sent w /\
  socket (snd (startup config w)) = socket w.
Proof.
  unfold startup, try_catch, bind, lift, ret, throw, logger.
  rewrite validateIpAddress_String, validatePort_Int.
  destruct (isValidIP (FAN_IP config)) eqn:Hip;
    [destruct (String.eqb_spec (FAN_IP config) "0.0.0.0") as [Hz | Hz];
     [|destruct (Z.ltb_spec (FAN_PORT config) 1);
       [|destruct (Z.ltb_spec 65535 (FAN_PORT config))]]|];
    unfold validation_failure; cbn.
  all: repeat split; try reflexivity; try discriminate; try lia; try tauto.
  all: try (intros (H1 & H2 & H3); first [discriminate | congruence | lia]).
  all: try (intros t [= <-]; eexists; split; [reflexivity|]; rewrite length_app; cbn; lia).
  all: try (intros t [= <-]; reflexivity).
Qed.

Lemma startup_spec_witness :
  fst (startup example_config (fresh_world (fun _ => Delivered))) = Normal tt /\
  snd (startup example_config (fresh_world (fun _ => Delivered))) =
    fresh_world (fun _ => Delivered).
Proof.
  assert (Hok : fst (startup example_config (fresh_world (fun _ => Delivered))) = Normal tt).
  { apply (proj1 (startup_spec example_config (fresh_world (fun _ => Delivered)))).
    split; [vm_compute; reflexivity|]. split; [discriminate | simpl; lia]. }
  split; [exact Hok|].
  apply (proj1 (proj2 (startup_spec example_config (fresh_world (fun _ => Delivered))))).
  exact Hok.
Defined.

(* ===================================================================== *)
(** ** Further properties of the transport and the operations *)
(* ===================================================================== *)

(** On a running socket the loop sends until a datagram is delivered or
    the attempts are used up; [n] is the number of attempts left after
    the current one. *)
Lemma send_loop_outcome str maxRetries baseDelay :
  forall (n : nat) attempt lastError w tr,
    n = Z.to_nat (maxRetries - attempt) ->
    attempt <= maxRetries ->
    socket w = Open ->
    exists x w' tr',
      retry_loop (send_attempt str) maxRetries baseDelay attempt lastError w tr =
        (x, w', tr') /\
      socket w' = Open /\ network w' = network w /\
      ((exists j, (j <= n)%nat /\ first_delivered w (List.length (sent w)) j /\
                  x = Returned tt /\ sent w' = sent w ++ repeat str (S j))
       \/
       (all_fail w (List.length (sent w)) (S n) /\
        x = ThrewInLoop retry_exhausted /\ sent w' = sent w ++ repeat str (S n))).
Proof.
  induction n as [|n IH]; intros attempt lastError w tr Hn Hle Hopen;
    rewrite retry_loop_step;
    (replace (attempt <=? maxRetries) with true by (symmetry; apply Z.leb_le; lia));
    unfold send_attempt at 1; rewrite Hopen;
    destruct (network w (List.length (sent w))) as [| err |] eqn:Hnet.
  1, 4: (eexists; eexists; eexists; split; [reflexivity|];
         split; [reflexivity|]; split; [reflexivity|]; left; exists 0%nat;
         split; [lia|]; split; [|split; reflexivity];
         split; [intros i Hi; lia | rewrite Nat.add_0_r; exact Hnet]).
  1, 2: (replace (attempt =? maxRetries) with true by (symmetry; apply Z.eqb_eq; lia);
         eexists; eexists; eexists; split; [reflexivity|];
         split; [reflexivity|]; split; [reflexivity|]; right;
         split; [|split; reflexivity];
         intros i Hi; replace i with 0%nat by lia; rewrite Nat.add_0_r, Hnet;
         discriminate).
  all: replace (attempt =? maxRetries) with false by (symmetry; apply Z.eqb_neq; lia).
  all: match goal with
       | |- context [retry_loop _ _ _ ?a ?le ?s ?t] =>
           destruct (IH a le s t ltac:(lia) ltac:(lia) eq_refl)
             as (x & w' & tr' & Hrun & Hsock & Hnw & Hcase)
       end.
  all: exists x, w', tr'; split; [exact Hrun|]; split; [exact Hsock|];
       split; [exact Hnw|].
  all: cbn [sent emit World_Logger network] in Hcase;
       rewrite length_app in Hcase; cbn [List.length] in Hcase.
  all: destruct Hcase as [(j & Hj & [Hfail Hdel] & Hx & Hsent) | (Hfail & Hx & Hsent)];
       [left; exists (S j); split; [lia|]; split; [split|split; [exact Hx|]]
       |right; split; [|split; [exact Hx|]]].
  all: try (rewrite Hsent, <- app_assoc; reflexivity).
  all: try (replace (List.length (sent w) + S j)%nat
              with (List.length (sent w) + 1 + j)%nat by lia; exact Hdel).
  all: intros i Hi; destruct i as [|i];
       [rewrite Nat.add_0_r, Hnet; discriminate
       |replace (List.length (sent w) + S i)%nat
          with (List.length (sent w) + 1 + i)%nat by lia; apply Hfail; lia].
Qed.

Lemma first_delivered_unique w from j1 j2 :
  first_delivered w from j1 -> first_delivered w from j2 -> j1 = j2.
Proof.
  intros [Hf1 Hd1] [Hf2 Hd2].
  destruct (Nat.lt_trichotomy j1 j2) as [Hlt | [Heq | Hgt]]; [|exact Heq|].
  - exfalso. apply (Hf2 j1 Hlt). exact Hd1.
  - exfalso. apply (Hf1 j2 Hgt). exact Hd2.
Qed.

(** What [sendUdpMessage] does on a running socket with at least one
    attempt allowed. *)
Lemma sendUdpMessage_outcome config message w :
  socket w = Open ->
  1 <= UDP_RETRY_ATTEMPTS config ->
  exists w',
    socket w' = Open /\ network w' = network w /\
    ((exists j, (j < Z.to_nat (UDP_RETRY_ATTEMPTS config))%nat /\
                first_delivered w (List.length (sent w)) j /\
                sendUdpMessage config message w = (Normal tt, w') /\
                sent w' = sent w ++ repeat (JSON_stringify message) (S j))
     \/
     (all_fail w (List.length (sent w)) (Z.to_nat (UDP_RETRY_ATTEMPTS config)) /\
      sendUdpMessage config message w = (Abrupt (ThrownError retry_exhausted), w') /\
      sent w' = sent w ++ repeat (JSON_stringify message)
                            (Z.to_nat (UDP_RETRY_ATTEMPTS config)))).
Proof.
  intros Hopen Hn.
  remember (sendUdpMessage config message w) as r eqn:Hr.
  unfold sendUdpMessage in Hr.
  unfold bind at 1 in Hr. unfold logger at 1 in Hr.
  unfold try_catch, withRetry, withRetry_run in Hr.
  match type of Hr with
  | context [retry_loop _ _ _ 1 None ?s []] =>
      destruct (send_loop_outcome (JSON_stringify message)
                  (UDP_RETRY_ATTEMPTS config) 100
                  (Z.to_nat (UDP_RETRY_ATTEMPTS config - 1)) 1 None s []
                  eq_refl Hn Hopen)
        as (x & w' & tr' & Hrun & Hsock & Hnw & Hcase)
  end.
  rewrite Hrun in Hr. unfold first_delivered, all_fail in *.
  cbn [sent network emit World_Logger] in Hcase, Hnw.
  replace (Z.to_nat (UDP_RETRY_ATTEMPTS config))
    with (S (Z.to_nat (UDP_RETRY_ATTEMPTS config - 1))) by lia.
  destruct Hcase as [(j & Hj & Hfirst & -> & Hsent) | (Hfail & -> & Hsent)];
    cbn in Hr; subst r.
  - exists w'. split; [exact Hsock|]. split; [exact Hnw|]. left.
    exists j. split; [lia|]. split; [exact Hfirst|]. split; [reflexivity | exact Hsent].
  - eexists. split; [|split].
    3: { right. split; [exact Hfail|]. split; [reflexivity | exact Hsent]. }
    + exact Hsock.
    + exact Hnw.
Qed.

(** An operation without argument does what [sendUdpMessage] does, one
    log entry later. *)
Lemma simple_operation_run config message before after failed w :
  let r := sendUdpMessage config message (emit (mkLog LInfo before []) w) in
  let r' :=
    try_catch
      (bind (logger LInfo before [])
         (fun _ => bind (sendUdpMessage config message)
            (fun _ => logger LInfo after [])))
      (fun error =>
         bind (logger LError failed [("error", describe error)])
           (fun _ => throw error)) w in
  fst r' = fst r /\ sent (snd r') = sent (snd r) /\
  socket (snd r') = socket (snd r) /\ network (snd r') = network (snd r).
Proof.
  cbv zeta. unfold try_catch, bind, logger, throw.
  destruct (sendUdpMessage config message (emit (mkLog LInfo before []) w))
    as [[[] | t] w1]; cbn; auto.
Qed.

Lemma setFanSpeed_run config z w :
  1 <= z <= 6 ->
  let r := sendUdpMessage config (mkMessage None None (Some (Int z)))
             (emit (mkLog LInfo "Setting fan speed"
                      [("speed", Number_toString (Int z))]) w) in
  let r' := setFanSpeed config (VNumber (Int z)) w in
  fst r' = fst r /\ sent (snd r') = sent (snd r) /\
  socket (snd r') = socket (snd r) /\ network (snd r') = network (snd r).
Proof.
  intros Hz. cbv zeta. unfold setFanSpeed, try_catch, bind, lift, logger, throw.
  rewrite validateFanSpeed_Int.
  replace (1 <=? z) with true by (symmetry; apply Z.leb_le; lia).
  replace (z <=? 6) with true by (symmetry; apply Z.leb_le; lia).
  cbn [andb].
  destruct (sendUdpMessage config (mkMessage None None (Some (Int z)))
              (emit (mkLog LInfo "Setting fan speed"
                       [("speed", Number_toString (Int z))]) w))
    as [[[] | t] w1]; cbn; auto.
  destruct (is_ValidationError t); cbn; auto.
Qed.

(** Every valid command runs [sendUdpMessage] on its message, in the
    state reached by one log entry. *)
Lemma dispatch_run config c m w :
  valid_command c = true ->
  encode c = Some m ->
  exists l,
    let r := sendUdpMessage config m (emit l w) in
    let r' := dispatch config c w in
    fst r' = fst r /\ sent (snd r') = sent (snd r) /\
    socket (snd r') = socket (snd r) /\ network (snd r') = network (snd r).
Proof.
  intros Hvalid Henc. destruct c as [| | | | level]; cbn [encode] in Henc.
  1-4: injection Henc as <-; eexists; cbn [dispatch];
    unfold turnOnLed, turnOffLed, turnOnFan, turnOffFan;
    apply simple_operation_run.
  cbn [valid_command] in Hvalid.
  destruct (valid_speed_inv level Hvalid) as (z & -> & Hz).
  injection Henc as <-. eexists. cbn [dispatch].
  apply setFanSpeed_run. exact Hz.
Qed.

(** X7. Transient failures are retried out of sight: on a running socket,
    if the first [j] sends fail (by error or by timeout) and the next one
    is delivered, with [j] below the number of attempts allowed, then
    every valid command returns normally after handing exactly [j + 1]
    copies of its payload to the socket. *)
Theorem operations_retry_until_delivered config c m w (j : nat) :
  valid_command c = true ->
  encode c = Some m ->
  socket w = Open ->
  first_delivered w (List.length (sent w)) j ->
  Z.of_nat j < UDP_RETRY_ATTEMPTS config ->
  fst (dispatch config c w) = Normal tt /\
  sent (snd (dispatch config c w)) = sent w ++ repeat (JSON_stringify m) (S j) /\
  socket (snd (dispatch config c w)) = Open.
Proof.
  intros Hvalid Henc Hopen Hfirst Hj.
  destruct (dispatch_run config c m w Hvalid Henc) as (l & Hfst & Hsent & Hsock & _).
  cbv zeta in *.
  assert (Hopen' : socket (emit l w) = Open) by exact Hopen.
  destruct (sendUdpMessage_outcome config m (emit l w) Hopen' ltac:(lia))
    as (w' & Hs' & _ & [(j' & Hj' & Hfirst' & Hrun & Hsent') | (Hfail & _ & _)]).
  - assert (j' = j) by (eapply first_delivered_unique; [exact Hfirst' | exact Hfirst]).
    subst j'. cbn [sent emit World_Logger] in Hsent'.
    rewrite Hrun in *. cbn [fst snd] in *.
    rewrite Hfst, Hsent, Hsock. auto.
  - exfalso. apply (Hfail j ltac:(lia)). apply Hfirst.
Qed.

Lemma operations_retry_until_delivered_witness :
  fst (dispatch example_config (SetSpeed (VNumber (Int 4))) (fresh_world (recovering 2)))
    = Normal tt /\
  sent (snd (dispatch example_config (SetSpeed (VNumber (Int 4)))
               (fresh_world (recovering 2))))
    = sent (fresh_world (recovering 2))
        ++ repeat (JSON_stringify (mkMessage None None (Some (Int 4)))) 3 /\
  socket (snd (dispatch example_config (SetSpeed (VNumber (Int 4)))
                 (fresh_world (recovering 2)))) = Open.
Proof.
  apply (operations_retry_until_delivered example_config (SetSpeed (VNumber (Int 4)))
           (mkMessage None None (Some (Int 4))) (fresh_world (recovering 2)) 2).
  - reflexivity.
  - reflexivity.
  - reflexivity.
  - split.
    + intros i Hi.
      destruct i as [|[|i]]; [discriminate | discriminate | lia].
    + reflexivity.
  - simpl. lia.
Defined.

(** X8. On a running socket and with at least one attempt allowed, when
    none of the attempts gets a datagram delivered, every valid command
    throws the retry-exhausted [NetworkError] after handing exactly
    [UDP_RETRY_ATTEMPTS] copies of its payload to the socket: one per
    attempt, none after the last. *)
Theorem operations_fail_after_all_attempts config c m w :
  valid_command c = true ->
  encode c = Some m ->
  socket w = Open ->
  1 <= UDP_RETRY_ATTEMPTS config ->
  all_fail w (List.length (sent w)) (Z.to_nat (UDP_RETRY_ATTEMPTS config)) ->
  fst (dispatch config c w) =
    Abrupt (ThrownError (NetworkError "Maximum retry attempts exceeded")) /\
  sent (snd (dispatch config c w)) =
    sent w ++ repeat (JSON_stringify m) (Z.to_nat (UDP_RETRY_ATTEMPTS config)).
Proof.
  intros Hvalid Henc Hopen Hn Hfail.
  destruct (dispatch_run config c m w Hvalid Henc) as (l & Hfst & Hsent & _).
  cbv zeta in *.
  assert (Hopen' : socket (emit l w) = Open) by exact Hopen.
  destruct (sendUdpMessage_outcome config m (emit l w) Hopen' Hn)
    as (w' & _ & _ & [(j' & Hj' & [_ Hdel] & _ & _) | (_ & Hrun & Hsent')]).
  - exfalso. apply (Hfail j' Hj'). exact Hdel.
  - cbn [sent emit World_Logger] in Hsent'.
    rewrite Hrun in *. cbn [fst snd] in *. rewrite Hfst, Hsent. auto.
Qed.

Lemma operations_fail_after_all_attempts_witness :
  fst (dispatch example_config LedOn (fresh_world (fun _ => SendFailed "EHOSTUNREACH"))) =
    Abrupt (ThrownError (NetworkError "Maximum retry attempts exceeded")) /\
  sent (snd (dispatch example_config LedOn
               (fresh_world (fun _ => SendFailed "EHOSTUNREACH")))) =
    sent (fresh_world (fun _ => SendFailed "EHOSTUNREACH"))
      ++ repeat (JSON_stringify (mkMessage (Some true) None None))
           (Z.to_nat (UDP_RETRY_ATTEMPTS example_config)).
Proof.
  apply (operations_fail_after_all_attempts example_config LedOn
           (mkMessage (Some true) None None)
           (fresh_world (fun _ => SendFailed "EHOSTUNREACH"))).
  - reflexivity.
  - reflexivity.
  - reflexivity.
  - simpl. lia.
  - intros i Hi. discriminate.
Defined.

(** *** A bound on the datagrams of one call *)

Lemma sends_at_most_weaken {A} (n n' : nat) (m : M World A) :
  (n <= n')%nat -> sends_at_most n m -> sends_at_most n' m.
Proof.
  intros Hle Hm w. destruct (Hm w) as (l & Hl & Hs). exists l. split; [lia | exact Hs].
Qed.

Lemma sends_at_most_ret {A} (a : A) : sends_at_most 0 (@ret World A a).
Proof. intros w. exists []. cbn. rewrite app_nil_r. auto. Qed.

Lemma sends_at_most_throw {A} t : sends_at_most 0 (@throw World A t).
Proof. intros w. exists []. cbn. rewrite app_nil_r. auto. Qed.

Lemma sends_at_most_lift {A} (c : Completion A) : sends_at_most 0 (lift c).
Proof. intros w. exists []. cbn. rewrite app_nil_r. auto. Qed.

Lemma sends_at_most_logger l msg meta : sends_at_most 0 (logger l msg meta).
Proof. intros w. exists []. cbn. rewrite app_nil_r. auto. Qed.

Lemma sends_at_most_bind {A B} n1 n2 (m : M World A) (k : A -> M World B) :
  sends_at_most n1 m -> (forall a, sends_at_most n2 (k a)) ->
  sends_at_most (n1 + n2) (bind m k).
Proof.
  intros Hm Hk w. unfold bind. destruct (Hm w) as (l1 & Hl1 & Hs1).
  destruct (m w) as [[a | t] w1]; cbn [snd] in *.
  - destruct (Hk a w1) as (l2 & Hl2 & Hs2). exists (l1 ++ l2).
    rewrite length_app, Hs2, Hs1, app_assoc. split; [lia | reflexivity].
  - exists l1. split; [lia | exact Hs1].
Qed.

Lemma sends_at_most_try_catch {A} n1 n2 (body : M World A) handler :
  sends_at_most n1 body -> (forall t, sends_at_most n2 (handler t)) ->
  sends_at_most (n1 + n2) (try_catch body handler).
Proof.
  intros Hb Hh w. unfold try_catch. destruct (Hb w) as (l1 & Hl1 & Hs1).
  destruct (body w) as [[a | t] w1]; cbn [snd] in *.
  - exists l1. split; [lia | exact Hs1].
  - destruct (Hh t w1) as (l2 & Hl2 & Hs2). exists (l1 ++ l2).
    rewrite length_app, Hs2, Hs1, app_assoc. split; [lia | reflexivity].
Qed.

Lemma send_loop_at_most str maxRetries baseDelay :
  forall (n : nat) attempt lastError w tr,
    n = Z.to_nat (maxRetries + 1 - attempt) ->
    exists l, (List.length l <= n)%nat /\
      sent (snd (fst (retry_loop (send_attempt str) maxRetries baseDelay
                        attempt lastError w tr))) = sent w ++ l.
Proof.
  induction n as [|n IH]; intros attempt lastError w tr Hn;
    rewrite retry_loop_step; destruct (attempt <=? maxRetries) eqn:Hle;
    try (exists []; cbn; rewrite app_nil_r; split; [lia | reflexivity]).
  - apply Z.leb_le in Hle. lia.
  - apply Z.leb_le in Hle.
    assert (Hone : exists l1, (List.length l1 <= 1)%nat /\
                     sent (snd (send_attempt str w)) = sent w ++ l1).
    { unfold send_attempt. destruct (socket w).
      - exists [str]. destruct (network w (List.length (sent w))); cbn; auto.
      - exists []. cbn. rewrite app_nil_r. auto. }
    destruct Hone as (l1 & Hl1 & Hs1).
    destruct (send_attempt str w) as [[v | e] w1]; cbn [snd] in Hs1.
    + exists l1. cbn. split; [lia | exact Hs1].
    + destruct (attempt =? maxRetries).
      * exists l1. cbn. split; [lia | exact Hs1].
      * match goal with
        | |- context [retry_loop _ _ _ ?a ?le ?s ?t] =>
            destruct (IH a le s t ltac:(lia)) as (l2 & Hl2 & Hs2)
        end.
        exists (l1 ++ l2). rewrite Hs2. cbn [sent emit World_Logger].
        rewrite Hs1, length_app, app_assoc. split; [lia | reflexivity].
Qed.

Lemma sends_at_most_sendUdpMessage config message :
  sends_at_most (Z.to_nat (UDP_RETRY_ATTEMPTS config)) (sendUdpMessage config message).
Proof.
  unfold sendUdpMessage.
  apply sends_at_most_weaken
    with (n := (0 + (Z.to_nat (UDP_RETRY_ATTEMPTS config) + (0 + 0)))%nat); [lia|].
  apply sends_at_most_bind; [apply sends_at_most_logger | intros _].
  apply sends_at_most_try_catch.
  - intros w. unfold withRetry, withRetry_run.
    destruct (send_loop_at_most (JSON_stringify message) (UDP_RETRY_ATTEMPTS config)
                100 _ 1 None w [] eq_refl) as (l & Hl & Hs).
    exists l. split; [lia|].
    destruct (retry_loop (send_attempt (JSON_stringify message))
                (UDP_RETRY_ATTEMPTS config) 100 1 None w []) as [[x w'] tr'].
    exact Hs.
  - intros t. apply sends_at_most_bind; [apply sends_at_most_logger | intros _].
    apply sends_at_most_throw.
Qed.

(** Bounds assembled along the structure of a computation; the sum that
    results is compared with the bound wanted by [lia]. *)
Ltac count_sends :=
  repeat first
    [ apply sends_at_most_sendUdpMessage
    | apply sends_at_most_logger
    | apply sends_at_most_ret
    | apply sends_at_most_throw
    | apply sends_at_most_lift
    | eapply sends_at_most_bind; [|intros ?]
    | eapply sends_at_most_try_catch; [|intros ?]
    | match goal with |- sends_at_most _ (if ?b then _ else _) => destruct b end ].

Lemma sends_at_most_setFanSpeed config speed :
  sends_at_most (Z.to_nat (UDP_RETRY_ATTEMPTS config)) (setFanSpeed config speed).
Proof.
  eapply sends_at_most_weaken; [|unfold setFanSpeed; count_sends].
  lia.
Qed.

Import Index.

(** X9. One call never floods the device: whatever the command (valid or
    not), the state of the socket and the behaviour of the network, an
    operation, the health probe and a tool handler each hand at most
    [UDP_RETRY_ATTEMPTS] datagrams to the socket and leave the earlier
    ones as they were. *)
Theorem operations_send_at_most_attempts config :
  (forall c, sends_at_most (Z.to_nat (UDP_RETRY_ATTEMPTS config)) (dispatch config c)) /\
  sends_at_most (Z.to_nat (UDP_RETRY_ATTEMPTS config)) (checkFanHealth config) /\
  (forall c, sends_at_most (Z.to_nat (UDP_RETRY_ATTEMPTS config)) (handler config c)) /\
  sends_at_most (Z.to_nat (UDP_RETRY_ATTEMPTS config)) (check_fan_health config).
Proof.
  assert (Hops : forall c,
             sends_at_most (Z.to_nat (UDP_RETRY_ATTEMPTS config)) (dispatch config c)).
  { intros c. destruct c as [| | | | level]; cbn [dispatch];
      try apply sends_at_most_setFanSpeed;
      (eapply sends_at_most_weaken;
       [|unfold turnOnLed, turnOffLed, turnOnFan, turnOffFan; count_sends]); lia. }
  assert (Hhealth :
            sends_at_most (Z.to_nat (UDP_RETRY_ATTEMPTS config)) (checkFanHealth config)).
  { eapply sends_at_most_weaken; [|unfold checkFanHealth; count_sends]. lia. }
  split; [exact Hops|]. split; [exact Hhealth|]. split.
  - intros c. destruct c as [| | | | level]; cbn [handler];
      unfold turn_on_led, turn_off_led, turn_on_fan, turn_off_fan, control_tool,
        set_fan_speed;
      (eapply sends_at_most_weaken;
       [|eapply sends_at_most_try_catch;
         [eapply sends_at_most_bind;
          [apply sends_at_most_logger
          |intros ?; eapply sends_at_most_bind;
           [first [apply (Hops LedOn) | apply (Hops LedOff) | apply (Hops PowerOn)
                  | apply (Hops PowerOff) | apply sends_at_most_setFanSpeed]
           |intros ?; apply sends_at_most_ret]]
         |intros ?; count_sends]]); lia.
  - unfold check_fan_health.
    eapply sends_at_most_weaken;
      [|eapply sends_at_most_try_catch;
        [eapply sends_at_most_bind;
         [apply sends_at_most_logger
         |intros ?; eapply sends_at_most_bind;
          [apply Hhealth | intros ?; apply sends_at_most_ret]]
        |intros ?; count_sends]]. lia.
Qed.

(** *** The health probe, seen from the wire *)

Lemma send_loop_same_wire str maxRetries baseDelay :
  forall (n : nat) attempt lastError w1 w2 tr,
    n = Z.to_nat (maxRetries + 1 - attempt) ->
    same_wire w1 w2 ->
    exists x w1' w2' tr',
      retry_loop (send_attempt str) maxRetries baseDelay attempt lastError w1 tr =
        (x, w1', tr') /\
      retry_loop (send_attempt str) maxRetries baseDelay attempt lastError w2 tr =
        (x, w2', tr') /\
      same_wire w1' w2'.
Proof.
  induction n as [|n IH]; intros attempt lastError w1 w2 tr Hn Hsame;
    rewrite !retry_loop_step with (attempt := attempt);
    destruct (attempt <=? maxRetries) eqn:Hle;
    try solve [exists (FellThrough lastError), w1, w2, tr; auto].
  - apply Z.leb_le in Hle. lia.
  - apply Z.leb_le in Hle.
    destruct w1 as [s1 o1 n1 l1], w2 as [s2 o2 n2 l2].
    destruct Hsame as (Hs & Ho & Hnw). cbn in Hs, Ho, Hnw. subst s2 o2 n2.
    unfold send_attempt. cbn [socket sent network logs].
    destruct s1.
    + destruct (n1 (List.length o1)) as [| err |].
      * eexists; eexists; eexists; eexists.
        split; [reflexivity|]. split; [reflexivity|]. repeat split.
      * destruct (attempt =? maxRetries).
        -- eexists; eexists; eexists; eexists.
           split; [reflexivity|]. split; [reflexivity|]. repeat split.
        -- apply IH; [lia | repeat split].
      * destruct (attempt =? maxRetries).
        -- eexists; eexists; eexists; eexists.
           split; [reflexivity|]. split; [reflexivity|]. repeat split.
        -- apply IH; [lia | repeat split].
    + destruct (attempt =? maxRetries).
      * eexists; eexists; eexists; eexists.
        split; [reflexivity|]. split; [reflexivity|]. repeat split.
      * apply IH; [lia | repeat split].
Qed.

Lemma sendUdpMessage_same_wire config message w1 w2 :
  same_wire w1 w2 ->
  exists c w1' w2',
    sendUdpMessage config message w1 = (c, w1') /\
    sendUdpMessage config message w2 = (c, w2') /\
    same_wire w1' w2'.
Proof.
  intros Hsame. unfold sendUdpMessage, bind, logger, try_catch, withRetry, withRetry_run, throw.
  match goal with
  | |- context [retry_loop _ _ _ 1 None (emit ?l w1) []] =>
      destruct (send_loop_same_wire (JSON_stringify message)
                  (UDP_RETRY_ATTEMPTS config) 100 _ 1 None
                  (emit l w1) (emit l w2) [] eq_refl) as (x & w1' & w2' & tr' & H1 & H2 & Hs)
  end.
  { destruct Hsame as (Hs & Ho & Hn). repeat split; cbn; assumption. }
  rewrite H1, H2. destruct Hs as (Hs & Ho & Hn).
  destruct x as [v | e | [e|]]; cbn;
    eexists; eexists; eexists; (split; [reflexivity|]); (split; [reflexivity|]);
    repeat split; cbn; assumption.
Qed.

(** X10. The health probe is not free of effect on the device: in every
    state [checkFanHealth] hands the socket exactly the datagrams that
    [turnOffLed] would, and it reports [healthy] exactly when [turnOffLed]
    would return normally. *)
Theorem health_probe_is_led_off config (w : World) :
  exists h,
    fst (checkFanHealth config w) = Normal h /\
    (status h = healthy <-> fst (turnOffLed config w) = Normal tt) /\
    sent (snd (checkFanHealth config w)) = sent (snd (turnOffLed config w)) /\
    socket (snd (checkFanHealth config w)) = socket (snd (turnOffLed config w)).
Proof.
  destruct (sendUdpMessage_same_wire config (mkMessage (Some false) None None)
              (emit (mkLog LDebug "Checking fan health" []) w)
              (emit (mkLog LInfo "Turning off LED" []) w))
    as (c & w1 & w2 & H1 & H2 & Hs & Ho & Hn).
  { repeat split. }
  unfold checkFanHealth, turnOffLed, try_catch, bind, logger, ret, throw.
  rewrite H1, H2.
  destruct c as [[] | t]; cbn; eexists; (split; [reflexivity|]); cbn;
    (split; [split; intros H; first [reflexivity | discriminate H]|]);
    split; assumption.
Qed.

(** X11. On a running socket with at least one attempt allowed,
    [checkFanHealth] reports [healthy] exactly when one of the next
    [UDP_RETRY_ATTEMPTS] sends is delivered: a device that answers only
    later than that is reported [unhealthy]. *)
Theorem checkFanHealth_healthy_iff config (w : World) :
  socket w = Open ->
  1 <= UDP_RETRY_ATTEMPTS config ->
  exists h,
    fst (checkFanHealth config w) = Normal h /\
    (status h = healthy <->
     exists j, (j < Z.to_nat (UDP_RETRY_ATTEMPTS config))%nat /\
               network w (List.length (sent w) + j) = Delivered).
Proof.
  intros Hopen Hn.
  assert (Hopen' : socket (emit (mkLog LDebug "Checking fan health" []) w) = Open)
    by exact Hopen.
  destruct (sendUdpMessage_outcome config (mkMessage (Some false) None None)
              _ Hopen' Hn)
    as (w' & _ & _ & [(j & Hj & [_ Hdel] & Hrun & _) | (Hfail & Hrun & _)]);
    unfold checkFanHealth, try_catch, bind, logger, ret, throw;
    rewrite Hrun; cbn; eexists; (split; [reflexivity|]); cbn.
  - split; [intros _; exists j; split; [exact Hj | exact Hdel] | reflexivity].
  - split; [discriminate|]. intros (j & Hj & Hdel). exfalso.
    apply (Hfail j Hj). exact Hdel.
Qed.

Lemma checkFanHealth_healthy_iff_witness :
  exists h,
    fst (checkFanHealth example_config (fresh_world (recovering 2))) = Normal h /\
    (status h = healthy <->
     exists j, (j < Z.to_nat (UDP_RETRY_ATTEMPTS example_config))%nat /\
               recovering 2 (0 + j) = Delivered).
Proof.
  apply (checkFanHealth_healthy_iff example_config (fresh_world (recovering 2))).
  - reflexivity.
  - simpl. lia.
Defined.


(* ===================================================================== *)
(** ** Properties of the tool handlers *)
(* ===================================================================== *)

Lemma is_ValidationError_FanControlError t :
  is_ValidationError t = true -> is_FanControlError t = true.
Proof.
  destruct t as [[m | n m c sc] |]; cbn; try discriminate. reflexivity.
Qed.

(** A handler runs its operation one log entry later and answers with
    its text; what the operation throws comes out as a [FanControlError],
    the same one if it already was one. *)
Lemma handler_run config c w :
  exists l,
    (forall w1, dispatch config c (emit l w) = (Normal tt, w1) ->
                handler config c w = (Normal (answer_of c), w1)) /\
    (forall t w1, dispatch config c (emit l w) = (Abrupt t, w1) ->
       exists t' l',
         handler config c w = (Abrupt t', emit l' w1) /\
         (is_FanControlError t = true -> t' = t) /\
         (exists e, t' = ThrownError e /\ instanceof_FanControlError e = true)).
Proof.
  destruct c as [| | | | level]; cbn [handler dispatch answer_of];
    unfold turn_on_led, turn_off_led, turn_on_fan, turn_off_fan, control_tool,
      set_fan_speed;
    eexists; (split; [intros w1 Hrun | intros t w1 Hrun]);
    unfold try_catch, bind, logger, ret, throw; rewrite Hrun; cbn;
    try reflexivity.
  1-4: destruct (is_FanControlError t) eqn:Hfce;
    eexists; eexists; (split; [reflexivity|]); (split; [auto; discriminate|]);
    [destruct t as [e|]; [exists e; auto | discriminate Hfce]
    |eexists; split; reflexivity].
  destruct (is_ValidationError t) eqn:Hve.
  - pose proof (is_ValidationError_FanControlError t Hve) as Hfce.
    cbn [orb]. eexists; eexists. split; [reflexivity|]. split; [auto|].
    destruct t as [e|]; [exists e; auto | discriminate Hfce].
  - cbn [orb]. destruct (is_FanControlError t) eqn:Hfce;
      eexists; eexists; (split; [reflexivity|]); (split; [auto; discriminate|]);
      [destruct t as [e|]; [exists e; auto | discriminate Hfce]
      |eexists; split; reflexivity].
Qed.

(** X12. The five control tools only ever throw [FanControlError]s: a
    plain [Error] or an [undefined] coming out of the service is wrapped
    in a new [FanControlError] before it leaves the handler. *)
Theorem tools_throw_FanControlError config (c : Command) (w : World) (t : Thrown) :
  fst (handler config c w) = Abrupt t ->
  exists e, t = ThrownError e /\ instanceof_FanControlError e = true.
Proof.
  intros Hthrow. destruct (handler_run config c w) as (l & Hok & Hbad).
  destruct (dispatch config c (emit l w)) as [[[] | t0] w1] eqn:Hrun.
  - rewrite (Hok w1 eq_refl) in Hthrow. discriminate Hthrow.
  - destruct (Hbad t0 w1 eq_refl) as (t' & l' & Hh & _ & Hfce).
    rewrite Hh in Hthrow. cbn in Hthrow. injection Hthrow as <-. exact Hfce.
Qed.

Lemma tools_throw_FanControlError_witness :
  exists e,
    ThrownError (NetworkError "Maximum retry attempts exceeded") = ThrownError e /\
    instanceof_FanControlError e = true.
Proof.
  apply (tools_throw_FanControlError example_config LedOn
           (fresh_world (fun _ => NoCallback))).
  vm_compute. reflexivity.
Defined.

(** X13. The [check-fan-health] tool never throws and its answer follows
    the outcome of the probe send: "Fan status: healthy. Fan is responding
    to UDP messages" when the send succeeds, and when it throws, "Fan
    status: unhealthy. Fan is not responding: " followed by the message of
    the error thrown, or by "undefined" when [undefined] was thrown. As
    the send fails only by exhaustion, or with [undefined] under a policy
    without attempts, the answer is one of three texts. *)
Theorem check_fan_health_answers config (w : World) :
  exists text w',
    check_fan_health config w = (Normal text, w') /\
    match fst (sendUdpMessage config (mkMessage (Some false) None None)
                 (emit (mkLog LDebug "Checking fan health" [])
                    (emit (mkLog LInfo "Health check requested" []) w))) with
    | Normal _ => text = "Fan status: healthy. Fan is responding to UDP messages"
    | Abrupt (ThrownError (PlainError m)) =>
        text = String.append "Fan status: unhealthy. Fan is not responding: " m
    | Abrupt (ThrownError (FanControlError _ m _ _)) =>
        text = String.append "Fan status: unhealthy. Fan is not responding: " m
    | Abrupt ThrownUndefined =>
        text = "Fan status: unhealthy. Fan is not responding: undefined"
    end /\
    (text = "Fan status: healthy. Fan is responding to UDP messages" \/
     (1 <= UDP_RETRY_ATTEMPTS config /\
      text = "Fan status: unhealthy. Fan is not responding: Maximum retry attempts exceeded") \/
     (UDP_RETRY_ATTEMPTS config < 1 /\
      text = "Fan status: unhealthy. Fan is not responding: undefined")).
Proof.
  destruct (checkFanHealth_run config (emit (mkLog LInfo "Health check requested" []) w))
    as [w' Hrun].
  unfold check_fan_health, try_catch, bind, logger, ret, throw.
  rewrite Hrun. cbn [fst snd].
  eexists; eexists. split; [reflexivity|].
  destruct (fst (sendUdpMessage config (mkMessage (Some false) None None)
                   (emit (mkLog LDebug "Checking fan health" [])
                      (emit (mkLog LInfo "Health check requested" []) w))))
    as [u | t] eqn:Hsend.
  - split; [reflexivity | left; reflexivity].
  - destruct (Z_lt_le_dec (UDP_RETRY_ATTEMPTS config) 1) as [Hlt | Hge].
    + rewrite (sendUdpMessage_no_attempts config _ _ Hlt) in Hsend.
      injection Hsend as <-. split; [reflexivity | right; right; auto].
    + apply (sendUdpMessage_throws config _ _ t Hge) in Hsend. subst t.
      split; [reflexivity | right; left; auto].
Qed.

(** X14. An out-of-range speed given to the [set-fan-speed] handler comes
    back as the validator's own [ValidationError] (code VALIDATION_ERROR,
    status 400), not wrapped, and nothing is handed to the socket. *)
Theorem set_fan_speed_rejects config (speed : Value) (w : World) :
  valid_speed speed = false ->
  exists msg w',
    validateFanSpeed speed = validation_failure msg /\
    set_fan_speed config speed w =
      (Abrupt (ThrownError
                 (FanControlError "ValidationError" msg "VALIDATION_ERROR" 400)), w') /\
    sent w' = sent w /\ socket w' = socket w.
Proof.
  intros Hv. destruct (validateFanSpeed_rejects speed Hv) as [msg Hmsg].
  exists msg. eexists. split; [exact Hmsg|].
  unfold set_fan_speed, setFanSpeed, try_catch, bind, lift, logger, throw, ret.
  rewrite Hmsg. unfold validation_failure. cbn. repeat split; reflexivity.
Qed.

Lemma set_fan_speed_rejects_witness :
  exists msg w',
    validateFanSpeed (VNumber (Int 0)) = validation_failure msg /\
    set_fan_speed example_config (VNumber (Int 0)) (fresh_world (fun _ => Delivered)) =
      (Abrupt (ThrownError
                 (FanControlError "ValidationError" msg "VALIDATION_ERROR" 400)), w') /\
    sent w' = sent (fresh_world (fun _ => Delivered)) /\
    socket w' = socket (fresh_world (fun _ => Delivered)).
Proof.
  apply (set_fan_speed_rejects example_config (VNumber (Int 0))
           (fresh_world (fun _ => Delivered))).
  reflexivity.
Defined.

(** Both outcomes of a valid command on a running socket. *)
Lemma dispatch_outcome config c m w :
  valid_command c = true ->
  encode c = Some m ->
  socket w = Open ->
  1 <= UDP_RETRY_ATTEMPTS config ->
  exists w',
    (exists j, (j < Z.to_nat (UDP_RETRY_ATTEMPTS config))%nat /\
               first_delivered w (List.length (sent w)) j /\
               dispatch config c w = (Normal tt, w') /\
               sent w' = sent w ++ repeat (JSON_stringify m) (S j))
    \/
    (all_fail w (List.length (sent w)) (Z.to_nat (UDP_RETRY_ATTEMPTS config)) /\
     dispatch config c w = (Abrupt (ThrownError retry_exhausted), w') /\
     sent w' = sent w ++ repeat (JSON_stringify m)
                           (Z.to_nat (UDP_RETRY_ATTEMPTS config))).
Proof.
  intros Hvalid Henc Hopen Hn.
  destruct (dispatch_run config c m w Hvalid Henc) as (l & Hfst & Hsent & _).
  cbv zeta in *.
  assert (Hopen' : socket (emit l w) = Open) by exact Hopen.
  destruct (sendUdpMessage_outcome config m (emit l w) Hopen' Hn)
    as (w' & _ & _ & Hcase).
  destruct (dispatch config c w) as [r w1]. cbn [fst snd] in *.
  exists w1.
  destruct Hcase as [(j & Hj & Hfirst & Hrun & Hsent') | (Hfail & Hrun & Hsent')];
    rewrite Hrun in *; cbn [fst snd] in *; subst r; rewrite Hsent.
  - left. exists j. auto.
  - right. auto.
Qed.

(** X15. End to end, for a valid command on a running socket with at
    least one attempt allowed: if one of the attempts gets its datagram
    delivered, the tool answers with its success text; if none does, the
    tool throws the retry-exhausted [NetworkError] of the service as it
    is (code NETWORK_ERROR, status 503), after one datagram per attempt. *)
Theorem tools_end_to_end config c m (w : World) :
  valid_command c = true ->
  encode c = Some m ->
  socket w = Open ->
  1 <= UDP_RETRY_ATTEMPTS config ->
  ((exists j, (j < Z.to_nat (UDP_RETRY_ATTEMPTS config))%nat /\
              network w (List.length (sent w) + j) = Delivered) ->
   fst (handler config c w) = Normal (answer_of c)) /\
  (all_fail w (List.length (sent w)) (Z.to_nat (UDP_RETRY_ATTEMPTS config)) ->
   fst (handler config c w) =
     Abrupt (ThrownError
               (FanControlError "NetworkError" "Maximum retry attempts exceeded"
                  "NETWORK_ERROR" 503)) /\
   sent (snd (handler config c w)) =
     sent w ++ repeat (JSON_stringify m) (Z.to_nat (UDP_RETRY_ATTEMPTS config))).
Proof.
  intros Hvalid Henc Hopen Hn.
  destruct (handler_run config c w) as (l & Hok & Hbad).
  assert (Hopen' : socket (emit l w) = Open) by exact Hopen.
  destruct (dispatch_outcome config c m (emit l w) Hvalid Henc Hopen' Hn)
    as (w' & [(j & Hj & [_ Hdel] & Hrun & _) | (Hfail & Hrun & Hsent)]).
  - split.
    + intros _. rewrite (Hok w' Hrun). reflexivity.
    + intros Hall. exfalso. apply (Hall j Hj). exact Hdel.
  - split.
    + intros (j & Hj & Hdel). exfalso. apply (Hfail j Hj). exact Hdel.
    + intros _. destruct (Hbad _ w' Hrun) as (t' & l' & Hh & Hsame & _).
      rewrite Hh, (Hsame eq_refl). cbn. split; [reflexivity | exact Hsent].
Qed.

Lemma tools_end_to_end_witness :
  ((exists j, (j < Z.to_nat (UDP_RETRY_ATTEMPTS example_config))%nat /\
              recovering 1 (0 + j) = Delivered) ->
   fst (handler example_config PowerOn (fresh_world (recovering 1))) =
     Normal (answer_of PowerOn)) /\
  (all_fail (fresh_world (recovering 1)) 0 (Z.to_nat (UDP_RETRY_ATTEMPTS example_config)) ->
   fst (handler example_config PowerOn (fresh_world (recovering 1))) =
     Abrupt (ThrownError
               (FanControlError "NetworkError" "Maximum retry attempts exceeded"
                  "NETWORK_ERROR" 503)) /\
   sent (snd (handler example_config PowerOn (fresh_world (recovering 1)))) =
     sent (fresh_world (recovering 1))
       ++ repeat (JSON_stringify (mkMessage None (Some true) None))
            (Z.to_nat (UDP_RETRY_ATTEMPTS example_config))).
Proof.
  apply (tools_end_to_end example_config PowerOn (mkMessage None (Some true) None)
           (fresh_world (recovering 1))).
  - reflexivity.
  - reflexivity.
  - reflexivity.
  - simpl. lia.
Defined.


(* ===================================================================== *)
(** ** Payloads and shutdown *)
(* ===================================================================== *)

(** X16. Distinct valid commands are encoded as distinct payloads, so the
    device can tell every command from every other by the datagram
    alone. *)
Theorem payloads_distinct (c1 c2 : Command) (m1 m2 : UdpMessage) :
  valid_command c1 = true ->
  valid_command c2 = true ->
  encode c1 = Some m1 ->
  encode c2 = Some m2 ->
  JSON_stringify m1 = JSON_stringify m2 ->
  c1 = c2.
Proof.
  intros Hv1 Hv2 He1 He2 Heq.
  destruct c1 as [| | | | l1], c2 as [| | | | l2];
    cbn [valid_command] in Hv1, Hv2;
    try (destruct (valid_speed_inv l1 Hv1) as (z1 & -> & Hz1));
    try (destruct (valid_speed_inv l2 Hv2) as (z2 & -> & Hz2));
    cbn [encode] in He1, He2; injection He1 as <-; injection He2 as <-;
    try reflexivity; try (cbn in Heq; discriminate Heq).
  destruct (small_speed_cases z1 Hz1) as [-> | [-> | [-> | [-> | [-> | ->]]]]];
    destruct (small_speed_cases z2 Hz2) as [-> | [-> | [-> | [-> | [-> | ->]]]]];
    try reflexivity; vm_compute in Heq; discriminate Heq.
Qed.

Lemma payloads_distinct_witness : SetSpeed (VNumber (Int 2)) = SetSpeed (VNumber (Int 2)).
Proof.
  apply (payloads_distinct (SetSpeed (VNumber (Int 2))) (SetSpeed (VNumber (Int 2)))
           (mkMessage None None (Some (Int 2))) (mkMessage None None (Some (Int 2))));
    reflexivity.
Defined.

Lemma sendUdpMessage_closed config message w :
  socket w = Closed ->
  1 <= UDP_RETRY_ATTEMPTS config ->
  exists w',
    sendUdpMessage config message w = (Abrupt (ThrownError retry_exhausted), w') /\
    sent w' = sent w /\ socket w' = Closed.
Proof.
  intros Hclosed Hn.
  set (Inv := fun s : World => socket s = Closed /\ sent s = sent w).
  assert (Hrej : forall s, Inv s ->
             exists e s1, send_attempt (JSON_stringify message) s = (inr e, s1) /\ Inv s1).
  { intros s [Hs Ho]. unfold send_attempt. rewrite Hs.
    eexists; eexists. split; [reflexivity | split; assumption]. }
  assert (Hemit : forall l s, Inv s -> Inv (emit l s)).
  { intros l s [Hs Ho]. split; assumption. }
  unfold sendUdpMessage, bind, logger, try_catch, withRetry, withRetry_run, throw.
  match goal with
  | |- context [retry_loop _ _ _ 1 None ?s0 []] =>
      assert (Hinv : Inv s0) by (split; [exact Hclosed | reflexivity]);
      destruct (@retry_loop_exhausts World unit _
                  (send_attempt (JSON_stringify message)) Inv Hrej Hemit
                  (UDP_RETRY_ATTEMPTS config) 100 _ 1 None s0 [] eq_refl Hn Hinv)
        as (w' & [Hs Ho] & Hrun)
  end.
  rewrite Hrun. cbn. eexists. split; [reflexivity|]. split; assumption.
Qed.

(** X17. After [cleanup] the service is out of order but quiet: with at
    least one attempt allowed, every valid command throws the
    retry-exhausted [NetworkError] and the health probe reports
    [unhealthy], and neither hands anything to the closed socket. *)
Theorem operations_after_cleanup config c m (w : World) :
  valid_command c = true ->
  encode c = Some m ->
  1 <= UDP_RETRY_ATTEMPTS config ->
  let w1 := snd (cleanup w) in
  fst (dispatch config c w1) =
    Abrupt (ThrownError (NetworkError "Maximum retry attempts exceeded")) /\
  sent (snd (dispatch config c w1)) = sent w /\
  (exists h, fst (checkFanHealth config w1) = Normal h /\ status h = unhealthy) /\
  sent (snd (checkFanHealth config w1)) = sent w.
Proof.
  intros Hvalid Henc Hn w1.
  assert (Hclosed : socket w1 = Closed /\ sent w1 = sent w).
  { subst w1. unfold cleanup, try_catch, bind, logger, client_close.
    destruct w as [sock out net lg]. destruct sock; cbn; auto. }
  destruct Hclosed as [Hclosed Hout].
  split; [|split; [|split]].
  - destruct (dispatch_run config c m w1 Hvalid Henc) as (l & Hfst & _).
    cbv zeta in Hfst. rewrite Hfst.
    destruct (sendUdpMessage_closed config m (emit l w1)) as (w' & Hrun & _);
      [exact Hclosed | exact Hn |]. rewrite Hrun. reflexivity.
  - destruct (dispatch_run config c m w1 Hvalid Henc) as (l & _ & Hsent & _).
    cbv zeta in Hsent. rewrite Hsent.
    destruct (sendUdpMessage_closed config m (emit l w1)) as (w' & Hrun & Ho & _);
      [exact Hclosed | exact Hn |]. rewrite Hrun. cbn [snd]. rewrite Ho. exact Hout.
  - destruct (sendUdpMessage_closed config (mkMessage (Some false) None None)
                (emit (mkLog LDebug "Checking fan health" []) w1))
      as (w' & Hrun & _); [exact Hclosed | exact Hn |].
    unfold checkFanHealth, try_catch, bind, logger, ret, throw. rewrite Hrun. cbn.
    eexists. split; reflexivity.
  - destruct (sendUdpMessage_closed config (mkMessage (Some false) None None)
                (emit (mkLog LDebug "Checking fan health" []) w1))
      as (w' & Hrun & Ho & _); [exact Hclosed | exact Hn |].
    unfold checkFanHealth, try_catch, bind, logger, ret, throw. rewrite Hrun. cbn.
    rewrite Ho. exact Hout.
Qed.

Lemma operations_after_cleanup_witness :
  let w1 := snd (cleanup (fresh_world (fun _ => Delivered))) in
  fst (dispatch example_config LedOff w1) =
    Abrupt (ThrownError (NetworkError "Maximum retry attempts exceeded")) /\
  sent (snd (dispatch example_config LedOff w1)) = sent (fresh_world (fun _ => Delivered)) /\
  (exists h, fst (checkFanHealth example_config w1) = Normal h /\ status h = unhealthy) /\
  sent (snd (checkFanHealth example_config w1)) = sent (fresh_world (fun _ => Delivered)).
Proof.
  apply (operations_after_cleanup example_config LedOff (mkMessage (Some false) None None)
           (fresh_world (fun _ => Delivered))).
  - reflexivity.
  - reflexivity.
  - simpl. lia.
Defined.

(** X18. With at least one attempt allowed, the errors of single attempts
    (the timeout, the send error) never reach the caller of an operation:
    a valid command can only throw the retry-exhausted [NetworkError], and
    a command that throws anything else is an invalid one throwing its
    [ValidationError]. *)
Theorem operations_throw_only config (c : Command) (w : World) (t : Thrown) :
  1 <= UDP_RETRY_ATTEMPTS config ->
  fst (dispatch config c w) = Abrupt t ->
  (valid_command c = true /\
   t = ThrownError (NetworkError "Maximum retry attempts exceeded")) \/
  (valid_command c = false /\ exists msg, t = ThrownError (ValidationError msg)).
Proof.
  intros Hn Hthrow.
  assert (Hsimple : forall message before after failed,
             fst (try_catch
                    (bind (logger LInfo before [])
                       (fun _ => bind (sendUdpMessage config message)
                          (fun _ => logger LInfo after [])))
                    (fun error =>
                       bind (logger LError failed [("error", describe error)])
                         (fun _ => throw error)) w) = Abrupt t ->
             t = ThrownError retry_exhausted).
  { intros message before after failed Hrun.
    destruct (simple_operation_run config message before after failed w) as (Hfst & _).
    cbv zeta in Hfst. rewrite Hfst in Hrun.
    eapply sendUdpMessage_throws; eassumption. }
  destruct c as [| | | | level]; cbn [dispatch valid_command] in *;
    try (left; split; [reflexivity|]; eapply Hsimple; exact Hthrow).
  destruct (valid_speed level) eqn:Hv.
  - left. split; [reflexivity|].
    destruct (valid_speed_inv level Hv) as (z & -> & Hz).
    destruct (setFanSpeed_run config z w Hz) as (Hfst & _).
    cbv zeta in Hfst. rewrite Hfst in Hthrow.
    eapply sendUdpMessage_throws; eassumption.
  - right. split; [reflexivity|].
    destruct (validateFanSpeed_rejects level Hv) as [msg Hmsg].
    exists msg. revert Hthrow.
    unfold setFanSpeed, try_catch, bind, lift, logger, throw. rewrite Hmsg.
    unfold validation_failure. cbn. intros [= <-]. reflexivity.
Qed.

Lemma operations_throw_only_witness :
  (valid_command LedOn = true /\
   ThrownError (NetworkError "Maximum retry attempts exceeded") =
   ThrownError (NetworkError "Maximum retry attempts exceeded")) \/
  (valid_command LedOn = false /\
   exists msg, ThrownError (NetworkError "Maximum retry attempts exceeded") =
               ThrownError (ValidationError msg)).
Proof.
  apply (operations_throw_only example_config LedOn (fresh_world (fun _ => NoCallback))).
  - simpl. lia.
  - vm_compute. reflexivity.
Defined.
